(** * enumchecker: a shallow embedding of [enumchecker.py]

    The checker runs in two passes over a set of Python files.  The first
    pass ([EnumCollectorVisitor], [collect_enums]) records, for every class
    with a base named [Enum], the set of names assigned in its body.  The
    second pass ([EnumCheckerVisitor], [EnumChecker], [check_files]) flags
    every attribute access [C.m] where [C] is a recorded class and [m] is
    neither one of its members nor an attribute of [Enum] itself.

    Python dictionaries and sets are finite maps and sets of stdpp; objects
    mutated in place ([visitor.enums], [visitor.badnodes], the logger) are
    threaded through the functions as explicit state; exceptions are values
    of [exn] returned next to the state they leave behind. *)

From Stdlib Require Import ZArith String Ascii.
From stdpp Require Import gmap strings list.

Set Warnings "-register-all".
Local Open Scope string_scope.
Local Open Scope Z_scope.
Local Open Scope list_scope.

(** ** Syntax trees

    The fragment of Python's [ast] the two visitors can tell apart.  The
    fields of a node are listed in the order of its [_fields], which is the
    order [ast.NodeVisitor.generic_visit] walks them in.  Of the position
    attributes only the [lineno] of an expression is kept: the code reads no
    other. *)

Inductive constant :=
| CNone
| CInt (n : Z)
| CStr (s : string).

Inductive expr :=
| Name (id : string) (lineno : Z)
| Attribute (value : expr) (attr : string) (lineno : Z)
| Call (func : expr) (args : list expr) (lineno : Z)
| Subscript (value : expr) (slice : expr) (lineno : Z)
| Constant (c : constant) (lineno : Z)
| Tuple (elts : list expr) (lineno : Z)
| BinOp (left right : expr) (lineno : Z).

Inductive stmt :=
| FunctionDef (name : string) (body : list stmt) (decorator_list : list expr)
| ClassDef (name : string) (bases : list expr) (body : list stmt)
           (decorator_list : list expr)
| Return (value : option expr)
| Assign (targets : list expr) (value : expr)
| AnnAssign (target annotation : expr) (value : option expr)
| If (test : expr) (body orelse : list stmt)
| Expr (value : expr)
| Pass.

Inductive module :=
| ModuleDef (body : list stmt).

Definition lineno (e : expr) : Z :=
  match e with
  | Name _ l | Attribute _ _ l | Call _ _ l | Subscript _ _ l
  | Constant _ l | Tuple _ l | BinOp _ _ l => l
  end.

(** Anything [ast.AST] may be at run time. *)
Inductive node :=
| NModule (m : module)
| NStmt (s : stmt)
| NExpr (e : expr).

(** Structural induction that also covers the lists of children. *)
Section ExprInd.
Variable P : expr → Prop.
Hypothesis HName : ∀ id l, P (Name id l).
Hypothesis HAttribute : ∀ value attr l, P value → P (Attribute value attr l).
Hypothesis HCall : ∀ func args l,
  P func → Forall P args → P (Call func args l).
Hypothesis HSubscript : ∀ value slice l,
  P value → P slice → P (Subscript value slice l).
Hypothesis HConstant : ∀ c l, P (Constant c l).
Hypothesis HTuple : ∀ elts l, Forall P elts → P (Tuple elts l).
Hypothesis HBinOp : ∀ x y l, P x → P y → P (BinOp x y l).

Fixpoint expr_rect' (e : expr) : P e :=
  let fix go (es : list expr) : Forall P es :=
    match es with
    | [] => Forall_nil_2 P
    | e :: es => Forall_cons_2 P e es (expr_rect' e) (go es)
    end in
  match e with
  | Name id l => HName id l
  | Attribute value attr l => HAttribute value attr l (expr_rect' value)
  | Call func args l => HCall func args l (expr_rect' func) (go args)
  | Subscript value slice l =>
      HSubscript value slice l (expr_rect' value) (expr_rect' slice)
  | Constant c l => HConstant c l
  | Tuple elts l => HTuple elts l (go elts)
  | BinOp x y l => HBinOp x y l (expr_rect' x) (expr_rect' y)
  end.
End ExprInd.

Section StmtInd.
Variable P : stmt → Prop.
Hypothesis HFunctionDef : ∀ name body decos,
  Forall P body → P (FunctionDef name body decos).
Hypothesis HClassDef : ∀ name bases body decos,
  Forall P body → P (ClassDef name bases body decos).
Hypothesis HReturn : ∀ value, P (Return value).
Hypothesis HAssign : ∀ targets value, P (Assign targets value).
Hypothesis HAnnAssign : ∀ target annotation value,
  P (AnnAssign target annotation value).
Hypothesis HIf : ∀ test body orelse,
  Forall P body → Forall P orelse → P (If test body orelse).
Hypothesis HExpr : ∀ value, P (Expr value).
Hypothesis HPass : P Pass.

Fixpoint stmt_rect' (s : stmt) : P s :=
  let fix go (ss : list stmt) : Forall P ss :=
    match ss with
    | [] => Forall_nil_2 P
    | s :: ss => Forall_cons_2 P s ss (stmt_rect' s) (go ss)
    end in
  match s with
  | FunctionDef name body decos => HFunctionDef name body decos (go body)
  | ClassDef name bases body decos => HClassDef name bases body decos (go body)
  | Return value => HReturn value
  | Assign targets value => HAssign targets value
  | AnnAssign target annotation value => HAnnAssign target annotation value
  | If test body orelse => HIf test body orelse (go body) (go orelse)
  | Expr value => HExpr value
  | Pass => HPass
  end.
End StmtInd.

(** ** Exceptions *)

Inductive exn :=
| DuplicateEnumClassError (name : string)
| DuplicateEnumItemError (name : string)
| SyntaxError
| AttributeError
| ValueError
| IndexError.

Inductive result (A : Type) :=
| Ok (a : A)
| Raise (e : exn).
Arguments Ok {A} a.
Arguments Raise {A} e.

(** ** The usage scanner: [EnumCheckerVisitor] *)

Module EnumCheckerVisitor.
Section Visitor.
(** [oklist = set(dir(Enum)) | set(vars(Enum))] is computed from the
    interpreter's own [Enum] when the class is created; it is a fixed set
    of names for the run. *)
Variable oklist : gset string.
(** [self.enums] *)
Variable enums : gmap string (gset string).

(** [visit_Attribute] on [node], whose fields are [value] and [attr].
    [generic_visit] stands for [self.generic_visit(node)]: it maps
    [self.badnodes] before the children are walked to [self.badnodes]
    after. *)
Definition visit_Attribute (generic_visit : list expr → list expr)
    (node : expr) (value : expr) (attr : string)
    (badnodes : list expr) : list expr :=
  let enumclassname :=
    match value with
    | Name id _ => Some id
    | Attribute _ attr' _ => Some attr'
    | _ => None
    end in
  match enumclassname with
  | None => badnodes
  | Some enumclassname =>
      let badnodes :=
        match enums !! enumclassname with
        | Some members =>
            if bool_decide (attr ∉ members) && bool_decide (attr ∉ oklist)
            then badnodes ++ [node]
            else badnodes
        | None => badnodes
        end in
      generic_visit badnodes
  end.

(** [visit] on an expression: [visit_Attribute] on an [Attribute],
    [generic_visit] on every other node. *)
Fixpoint visit_expr (e : expr) (badnodes : list expr) : list expr :=
  match e with
  | Attribute value attr _ =>
      visit_Attribute (visit_expr value) e value attr badnodes
  | Name _ _ => badnodes
  | Constant _ _ => badnodes
  | Call func args _ =>
      fold_left (λ badnodes a, visit_expr a badnodes) args
                (visit_expr func badnodes)
  | Subscript value slice _ => visit_expr slice (visit_expr value badnodes)
  | Tuple elts _ =>
      fold_left (λ badnodes a, visit_expr a badnodes) elts badnodes
  | BinOp x y _ => visit_expr y (visit_expr x badnodes)
  end.

Definition visit_exprs (es : list expr) (badnodes : list expr) : list expr :=
  fold_left (λ badnodes a, visit_expr a badnodes) es badnodes.

Definition visit_opt_expr (oe : option expr) (badnodes : list expr)
    : list expr :=
  match oe with
  | Some e => visit_expr e badnodes
  | None => badnodes
  end.

Fixpoint visit_stmt (s : stmt) (badnodes : list expr) : list expr :=
  match s with
  | FunctionDef _ body decorator_list =>
      visit_exprs decorator_list
        (fold_left (λ badnodes s, visit_stmt s badnodes) body badnodes)
  | ClassDef _ bases body decorator_list =>
      visit_exprs decorator_list
        (fold_left (λ badnodes s, visit_stmt s badnodes) body
           (visit_exprs bases badnodes))
  | Return value => visit_opt_expr value badnodes
  | Assign targets value => visit_expr value (visit_exprs targets badnodes)
  | AnnAssign target annotation value =>
      visit_opt_expr value (visit_expr annotation (visit_expr target badnodes))
  | If test body orelse =>
      fold_left (λ badnodes s, visit_stmt s badnodes) orelse
        (fold_left (λ badnodes s, visit_stmt s badnodes) body
           (visit_expr test badnodes))
  | Expr value => visit_expr value badnodes
  | Pass => badnodes
  end.

Definition visit_stmts (ss : list stmt) (badnodes : list expr) : list expr :=
  fold_left (λ badnodes s, visit_stmt s badnodes) ss badnodes.

Definition visit_module (m : module) (badnodes : list expr) : list expr :=
  match m with
  | ModuleDef body => visit_stmts body badnodes
  end.
End Visitor.
End EnumCheckerVisitor.

(** ** Python built-ins the checker relies on *)

(** [l[i]]: a negative index counts from the end, anything else out of
    range raises [IndexError]. *)
Definition py_index {A : Type} (l : list A) (i : Z) : result A :=
  let n := Z.of_nat (length l) in
  let j := if i <? 0 then i + n else i in
  if (j <? 0) || (n <=? j) then Raise IndexError
  else match l !! Z.to_nat j with
       | Some x => Ok x
       | None => Raise IndexError
       end.

(** [s.split(sep)] scans [s] from the left.  [skip] counts the characters of
    a separator just matched that are still to be passed over, [cur] is the
    piece collected so far. *)
Fixpoint split_from (sep : string) (skip : nat) (cur : string) (s : string)
    : list string :=
  match s with
  | EmptyString => [cur]
  | String c s' =>
      match skip with
      | S k => split_from sep k cur s'
      | O =>
          if String.prefix sep s
          then cur :: split_from sep (String.length sep - 1) "" s'
          else split_from sep 0 (cur +:+ String c "") s'
      end
  end.

Definition str_split (s sep : string) : result (list string) :=
  match sep with
  | EmptyString => Raise ValueError
  | _ => Ok (split_from sep 0 "" s)
  end.

(** ** Logging

    A call [logger.level(msg, *args)] appends a record to the log; the
    formatter later renders [record.msg % record.args]. *)

Inductive level := DEBUG | INFO | WARNING | CRITICAL.

Inductive logarg :=
| ArgStr (s : string)
| ArgInt (n : Z)
| ArgRepr (e : exn)
| ArgPformat (enums : gmap string (gset string)).

Record logrecord := LogRecord {
  levelname : level;
  msg : string;
  args : list logarg
}.

(** A generator that was run to its end: what it yielded, and the exception
    that ended it, if one did. *)
Definition generated (A : Type) : Type := list A * option exn.

(** ** The report builder: [EnumChecker] *)

Record EnumChecker := mkEnumChecker {
  visitor_enums : gmap string (gset string);
  visitor_badnodes : list expr;
  filename : option string;
  code : string
}.

Section EnumChecker.
Variable oklist : gset string.
(** [os.linesep] *)
Variable linesep : string.
(** [open(fn).read()], for the files [os.walk] lists. *)
Variable read_file : string → string.
(** [ast.parse]; [None] stands for a [SyntaxError]. *)
Variable ast_parse : string → option module.

(** [EnumChecker.__init__] *)
Definition EnumChecker_init (enumdata : gmap string (gset string))
    : EnumChecker :=
  mkEnumChecker enumdata [] None "".

Definition checkfile (self : EnumChecker) (fn : string)
    : EnumChecker * result unit :=
  let self := mkEnumChecker (visitor_enums self) (visitor_badnodes self)
                            (Some fn) (read_file fn) in
  let self := mkEnumChecker (visitor_enums self) [] (filename self)
                            (code self) in
  match ast_parse (code self) with
  | None => (self, Raise SyntaxError)
  | Some tree =>
      (mkEnumChecker (visitor_enums self)
         (EnumCheckerVisitor.visit_module oklist (visitor_enums self) tree
            (visitor_badnodes self))
         (filename self) (code self),
       Ok ())
  end.

Definition summary (self : EnumChecker) : nat * nat :=
  let nodecount := length (visitor_badnodes self) in
  let linecount :=
    size (list_to_set (lineno <$> visitor_badnodes self) : gset Z) in
  (nodecount, linecount).

(** The [for] loop of [results]. *)
Fixpoint results_loop (codelines : list string) (badnodes : list expr)
    : generated (Z * string) :=
  match badnodes with
  | [] => ([], None)
  | badnode :: badnodes =>
      let lineno := lineno badnode in
      match py_index codelines (lineno - 1) with
      | Raise e => ([], Some e)
      | Ok codeline =>
          let '(rest, e) := results_loop codelines badnodes in
          ((lineno, codeline) :: rest, e)
      end
  end.

Definition results (self : EnumChecker) : generated (Z * string) :=
  match visitor_badnodes self with
  | [] => ([], None)
  | _ =>
      let suspectlines := lineno <$> visitor_badnodes self in
      match suspectlines with
      | [] => ([], None)
      | _ =>
          match str_split (code self) linesep with
          | Raise e => ([], Some e)
          | Ok codelines => results_loop codelines (visitor_badnodes self)
          end
      end
  end.

(** The body of the [for fn in filenames] loop of [check_files], run over
    the whole list.  The state is the checker, the count of bad files and
    the log. *)
Fixpoint check_files_loop (filenames : list string) (checker : EnumChecker)
    (badfiles : nat) (log : list logrecord)
    : EnumChecker * list logrecord * result nat :=
  match filenames with
  | [] => (checker, log, Ok badfiles)
  | fn :: filenames =>
      let log := log ++ [LogRecord DEBUG "Checking file: %s" [ArgStr fn]] in
      match checkfile checker fn with
      | (checker, Raise e) => (checker, log, Raise e)
      | (checker, Ok _) =>
          let '(lines, e) := results checker in
          let log := log ++
            map (λ '(lineno, codeline),
                   LogRecord INFO "%s: Line %d: %s"
                     [ArgStr fn; ArgInt lineno; ArgStr codeline]) lines in
          match e with
          | Some e => (checker, log, Raise e)
          | None =>
              let '(nodecount, linecount) := summary checker in
              match nodecount with
              | O => check_files_loop filenames checker badfiles log
              | S _ =>
                  let log := log ++
                    [LogRecord WARNING "%s: %d errors on %d lines"
                       [ArgStr fn; ArgInt (Z.of_nat nodecount);
                        ArgInt (Z.of_nat linecount)]] in
                  check_files_loop filenames checker (badfiles + 1) log
              end
          end
      end
  end.

Definition check_files (filenames : list string)
    (enums : gmap string (gset string)) (log : list logrecord)
    : list logrecord * result nat :=
  let log := log ++
    [LogRecord INFO "Checking enum values in %d files"
       [ArgInt (Z.of_nat (length filenames))]] in
  let checker := EnumChecker_init enums in
  match check_files_loop filenames checker 0 log with
  | (_, log, Raise e) => (log, Raise e)
  | (_, log, Ok badfiles) =>
      match badfiles with
      | O => (log ++ [LogRecord INFO "All is well." []], Ok badfiles)
      | S _ =>
          (log ++ [LogRecord CRITICAL "Found %d bad files."
                     [ArgInt (Z.of_nat badfiles)]],
           Ok badfiles)
      end
  end.
End EnumChecker.

(** ** The declaration scanner *)

Definition is_enum_class (node : node) : bool :=
  match node with
  | NStmt (ClassDef _ bases _ _) =>
      existsb (λ base, match base with
                       | Name id _ => String.eqb id "Enum"
                       | _ => false
                       end) bases
  | _ => false
  end.

(** [collections.Counter]: a dictionary of counts, its keys in the order
    they were first seen. *)
Fixpoint counter_add (name : string) (counts : list (string * nat))
    : list (string * nat) :=
  match counts with
  | [] => [(name, 1%nat)]
  | (k, count) :: counts =>
      if String.eqb k name then (k, S count) :: counts
      else (k, count) :: counter_add name counts
  end.

Definition Counter (names : list string) : list (string * nat) :=
  fold_left (λ counts name, counter_add name counts) names [].

Fixpoint detect_duplicates_loop (items : list (string * nat)) : result unit :=
  match items with
  | [] => Ok ()
  | (name, count) :: items =>
      if (1 <? count)%nat then Raise (DuplicateEnumItemError name)
      else detect_duplicates_loop items
  end.

Definition detect_duplicates (names : list string) : result unit :=
  let counts := Counter names in
  detect_duplicates_loop counts.

(** [node.body], for the statements that have one. *)
Definition stmt_body (node : stmt) : result (list stmt) :=
  match node with
  | FunctionDef _ body _ | ClassDef _ _ body _ | If _ body _ => Ok body
  | _ => Raise AttributeError
  end.

Definition is_Assign (n : stmt) : bool :=
  match n with Assign _ _ => true | _ => false end.

Definition Assign_targets (a : stmt) : list expr :=
  match a with Assign targets _ => targets | _ => [] end.

Definition Name_id (target : expr) : option string :=
  match target with Name id _ => Some id | _ => None end.

Definition assignment_names (node : stmt) : result (gset string) :=
  match stmt_body node with
  | Raise e => Raise e
  | Ok body =>
      let assignments := List.filter is_Assign body in
      let targets := concat (map Assign_targets assignments) in
      let names := omap Name_id targets in
      match detect_duplicates names with
      | Raise e => Raise e
      | Ok _ => Ok (list_to_set names)
      end
  end.

Module EnumCollectorVisitor.
(** [self.enums] is updated in place: a visit maps the dictionary before
    to the dictionary after, together with the exception raised, if any. *)
Definition visiting : Type :=
  gmap string (gset string) → gmap string (gset string) * result unit.

(** Visit the items of a list of children in turn; an exception ends the
    walk. *)
Definition visit_list {A : Type} (visit : A → visiting) : list A → visiting :=
  fix go (l : list A) (enums : gmap string (gset string)) :=
    match l with
    | [] => (enums, Ok ())
    | x :: l =>
        match visit x enums with
        | (enums, Ok _) => go l enums
        | (enums, Raise e) => (enums, Raise e)
        end
    end.

(** [visit_ClassDef] on [node], whose name is [name]; [generic_visit]
    stands for [self.generic_visit(node)]. *)
Definition visit_ClassDef (generic_visit : visiting) (node : stmt)
    (name : string) : visiting :=
  λ enums,
    if negb (is_enum_class (NStmt node)) then (enums, Ok ())
    else
      match assignment_names node with
      | Raise e => (enums, Raise e)
      | Ok values =>
          let conflict :=
            match enums !! name with
            | Some registered => bool_decide (registered ≠ values)
            | None => false
            end in
          if conflict then (enums, Raise (DuplicateEnumClassError name))
          else generic_visit (<[name := values]> enums)
      end.

(** [visit] on a statement.  Expressions hold no statements, so walking
    the expression children of a node never reaches a [ClassDef] and
    leaves [self.enums] as it is. *)
Fixpoint visit_stmt (s : stmt) : visiting :=
  match s with
  | ClassDef name _ body _ => visit_ClassDef (visit_list visit_stmt body) s name
  | FunctionDef _ body _ => visit_list visit_stmt body
  | If _ body orelse =>
      λ enums,
        match visit_list visit_stmt body enums with
        | (enums, Ok _) => visit_list visit_stmt orelse enums
        | (enums, Raise e) => (enums, Raise e)
        end
  | Return _ | Assign _ _ | AnnAssign _ _ _ | Expr _ | Pass =>
      λ enums, (enums, Ok ())
  end.

Definition visit_stmts : list stmt → visiting := visit_list visit_stmt.

Definition visit_module (m : module) : visiting :=
  match m with
  | ModuleDef body => visit_stmts body
  end.
End EnumCollectorVisitor.

Section CollectEnums.
Variable read_file : string → string.
Variable ast_parse : string → option module.

(** The [for fn in filenames] loop of [collect_enums]; the state is
    [visitor.enums] and the log. *)
Fixpoint collect_enums_loop (filenames : list string)
    (enums : gmap string (gset string)) (log : list logrecord)
    : gmap string (gset string) * list logrecord * result unit :=
  match filenames with
  | [] => (enums, log, Ok ())
  | fn :: filenames =>
      match ast_parse (read_file fn) with
      | None =>
          collect_enums_loop filenames enums
            (log ++ [LogRecord WARNING "Ignoring syntax error in file: %s"
                       [ArgStr fn]])
      | Some tree =>
          match EnumCollectorVisitor.visit_module tree enums with
          | (enums, Ok _) => collect_enums_loop filenames enums log
          | (enums, Raise (DuplicateEnumClassError _ as e)) =>
              collect_enums_loop filenames enums
                (log ++ [LogRecord WARNING
                           "Found a duplicate enum class name: %s"
                           [ArgRepr e]])
          | (enums, Raise (DuplicateEnumItemError _ as e)) =>
              collect_enums_loop filenames enums
                (log ++ [LogRecord WARNING "Found a duplicate enum item: %s"
                           [ArgRepr e]])
          | (enums, Raise e) => (enums, log, Raise e)
          end
      end
  end.

Definition collect_enums (filenames : list string) (log : list logrecord)
    : list logrecord * result (gmap string (gset string)) :=
  let log := log ++
    [LogRecord INFO "Collecting enums from %d files"
       [ArgInt (Z.of_nat (length filenames))]] in
  match collect_enums_loop filenames ∅ log with
  | (enums, log, Ok _) =>
      (log ++ [LogRecord DEBUG "Enums: %s" [ArgPformat enums]], Ok enums)
  | (_, log, Raise e) => (log, Raise e)
  end.
End CollectEnums.

Section Main.
Variable oklist : gset string.
Variable linesep : string.
Variable read_file : string → string.
Variable ast_parse : string → option module.

(** [main], once [parse_args] and [pyfiles] have produced the list of
    file names. *)
Definition main (filenames : list string) (log : list logrecord)
    : list logrecord * result nat :=
  match collect_enums read_file ast_parse filenames log with
  | (log, Raise e) => (log, Raise e)
  | (log, Ok enums) =>
      match check_files oklist linesep read_file ast_parse
              filenames enums log with
      | (log, Raise e) => (log, Raise e)
      | (log, Ok badfiles) => (log, Ok (Nat.min badfiles 1))
      end
  end.
End Main.

(** ** Listing the files: [pyfiles] *)

(** [s.endswith(suffix)] *)
Fixpoint endswith (s suffix : string) : bool :=
  String.eqb s suffix ||
  match s with
  | EmptyString => false
  | String _ s' => endswith s' suffix
  end.

(** [os.path.join(a, b)] where [os.path] is [posixpath]: an absolute [b]
    stands alone, otherwise [b] is put after [a], with a slash between
    them unless [a] is empty or ends with one. *)
Definition posixpath_join (a b : string) : string :=
  if String.prefix "/" b then b
  else if String.eqb a "" || endswith a "/" then a +:+ b
  else a +:+ "/" +:+ b.

Section Pyfiles.
(** [os.walk]: for each directory under the root, its path, the names of
    its subdirectories and the names of its files. *)
Variable os_walk : string → list (string * list string * list string).

Definition pyfiles (dir_ : string) : list string :=
  '(dirpath, _, filenames) ← os_walk dir_;
  filename ← filenames;
  if endswith filename ".py" then [posixpath_join dirpath filename] else [].
End Pyfiles.

(** * Vocabulary of the specification *)

(** The candidate class name of an access [base.member]: the text of a
    plain identifier, the last component of a dotted path, nothing for any
    other shape of [base]. *)
Definition candidate (base : expr) : option string :=
  match base with
  | Name id _ => Some id
  | Attribute _ member _ => Some member
  | _ => None
  end.

(** The access [base.member] is a defect: its candidate class name is a key
    of the registry, and [member] is neither declared for that class nor a
    built-in member of every enumeration. *)
Definition flagged_access (oklist : gset string)
    (registry : gmap string (gset string)) (base : expr) (member : string)
    : Prop :=
  ∃ cls members,
    candidate base = Some cls ∧ registry !! cls = Some members ∧
    (member ∉ members) ∧ (member ∉ oklist).

(** The number of nodes of an expression. *)
Fixpoint expr_size (e : expr) : nat :=
  match e with
  | Name _ _ | Constant _ _ => 1%nat
  | Attribute value _ _ => S (expr_size value)
  | Call func args _ => S (expr_size func + list_sum (map expr_size args))
  | Subscript value slice _ => S (expr_size value + expr_size slice)
  | Tuple elts _ => S (list_sum (map expr_size elts))
  | BinOp x y _ => S (expr_size x + expr_size y)
  end.

(** [counts[name]] for a [Counter]: zero for a key it does not hold. *)
Fixpoint counter_get (name : string) (counts : list (string * nat)) : nat :=
  match counts with
  | [] => 0%nat
  | (k, count) :: counts =>
      if String.eqb k name then count else counter_get name counts
  end.

(** How often [name] occurs in a list of names. *)
Definition occurrences (name : string) (names : list string) : nat :=
  length (filter (λ x, x = name) names).

(** The plain-identifier targets of the assignment statements that stand
    directly in a class body, in source order. *)
Fixpoint identifier_targets (body : list stmt) : list string :=
  match body with
  | [] => []
  | Assign targets _ :: body =>
      omap (λ target, match target with
                      | Name id _ => Some id
                      | _ => None
                      end) targets ++ identifier_targets body
  | _ :: body => identifier_targets body
  end.

(** [reaches s c]: the statement [c] is [s] itself, or stands under [s] on a
    path that leads through function bodies, the branches of [if]
    statements and the bodies of enumeration classes only. *)
Inductive reaches : stmt → stmt → Prop :=
| reaches_here (s : stmt) : reaches s s
| reaches_FunctionDef (name : string) (body : list stmt)
    (decorator_list : list expr) (s c : stmt) :
    s ∈ body → reaches s c → reaches (FunctionDef name body decorator_list) c
| reaches_If_body (test : expr) (body orelse : list stmt) (s c : stmt) :
    s ∈ body → reaches s c → reaches (If test body orelse) c
| reaches_If_orelse (test : expr) (body orelse : list stmt) (s c : stmt) :
    s ∈ orelse → reaches s c → reaches (If test body orelse) c
| reaches_enum_class (name : string) (bases : list expr) (body : list stmt)
    (decorator_list : list expr) (s c : stmt) :
    is_enum_class (NStmt (ClassDef name bases body decorator_list)) = true →
    s ∈ body → reaches s c →
    reaches (ClassDef name bases body decorator_list) c.

(** A visit only adds to the registry: every entry it finds is still there,
    with the same members, when the visit ends, whether it ends normally or
    with an exception. *)
Definition keeps_entries (visit : EnumCollectorVisitor.visiting) : Prop :=
  ∀ enums enums' r, visit enums = (enums', r) → enums ⊆ enums'.

(** The class [name] with members [values] is declared at a place the
    scanner reaches when it visits [s]. *)
Definition declares (s : stmt) (name : string) (values : gset string)
    : Prop :=
  ∃ bases body decorator_list,
    let c := ClassDef name bases body decorator_list in
    reaches s c ∧ is_enum_class (NStmt c) = true ∧
    assignment_names c = Ok values.

(** [visits e n]: the usage scanner, started on the expression [e], gets to
    visit the node [n].  It walks into every child of every node, except
    that it does not go below an attribute access whose base gives no
    candidate class name. *)
Inductive visits : expr → expr → Prop :=
| visits_here (e : expr) : visits e e
| visits_Attribute (value : expr) (attr : string) (l : Z) (n : expr) :
    candidate value ≠ None → visits value n → visits (Attribute value attr l) n
| visits_Call_func (func : expr) (args : list expr) (l : Z) (n : expr) :
    visits func n → visits (Call func args l) n
| visits_Call_args (func : expr) (args : list expr) (l : Z) (a n : expr) :
    a ∈ args → visits a n → visits (Call func args l) n
| visits_Subscript_value (value slice : expr) (l : Z) (n : expr) :
    visits value n → visits (Subscript value slice l) n
| visits_Subscript_slice (value slice : expr) (l : Z) (n : expr) :
    visits slice n → visits (Subscript value slice l) n
| visits_Tuple (elts : list expr) (l : Z) (a n : expr) :
    a ∈ elts → visits a n → visits (Tuple elts l) n
| visits_BinOp_left (x y : expr) (l : Z) (n : expr) :
    visits x n → visits (BinOp x y l) n
| visits_BinOp_right (x y : expr) (l : Z) (n : expr) :
    visits y n → visits (BinOp x y l) n.

(** The expressions that stand directly in a statement or in the statements
    under it, in the order the usage scanner comes to them. *)
Fixpoint stmt_exprs (s : stmt) : list expr :=
  match s with
  | FunctionDef _ body decorator_list =>
      flat_map stmt_exprs body ++ decorator_list
  | ClassDef _ bases body decorator_list =>
      bases ++ flat_map stmt_exprs body ++ decorator_list
  | Return value => option_list value
  | Assign targets value => targets ++ [value]
  | AnnAssign target annotation value =>
      target :: annotation :: option_list value
  | If test body orelse =>
      test :: flat_map stmt_exprs body ++ flat_map stmt_exprs orelse
  | Expr value => [value]
  | Pass => []
  end.

Definition module_exprs (m : module) : list expr :=
  match m with
  | ModuleDef body => flat_map stmt_exprs body
  end.

(** [n] is an attribute access the scanner visits in [m] and finds to be a
    defect. *)
Definition defect_in (oklist : gset string)
    (registry : gmap string (gset string)) (m : module) (n : expr) : Prop :=
  ∃ root value attr l,
    root ∈ module_exprs m ∧ visits root n ∧ n = Attribute value attr l ∧
    flagged_access oklist registry value attr.

(** The registry the loop of [collect_enums] builds from [enums]: every
    file that parses is scanned in turn, and the registry is carried on as
    the scan left it, whether the scan ended normally or not. *)
Fixpoint registry_after (read_file : string → string)
    (ast_parse : string → option module) (filenames : list string)
    (enums : gmap string (gset string)) : gmap string (gset string) :=
  match filenames with
  | [] => enums
  | fn :: filenames =>
      match ast_parse (read_file fn) with
      | None => registry_after read_file ast_parse filenames enums
      | Some tree =>
          registry_after read_file ast_parse filenames
            (EnumCollectorVisitor.visit_module tree enums).1
      end
  end.

(** Whether [ast.parse] accepts the text of a file. *)
Definition parses (read_file : string → string)
    (ast_parse : string → option module) (fn : string) : bool :=
  match ast_parse (read_file fn) with
  | Some _ => true
  | None => false
  end.

(** The nodes the usage scanner flags in the file [fn], given the
    registry; none for a file that does not parse. *)
Definition file_flagged (oklist : gset string)
    (enums : gmap string (gset string)) (read_file : string → string)
    (ast_parse : string → option module) (fn : string) : list expr :=
  match ast_parse (read_file fn) with
  | Some tree => EnumCheckerVisitor.visit_module oklist enums tree []
  | None => []
  end.

(** A file is bad when at least one node is flagged in it. *)
Definition file_is_bad (oklist : gset string)
    (enums : gmap string (gset string)) (read_file : string → string)
    (ast_parse : string → option module) (fn : string) : bool :=
  match file_flagged oklist enums read_file ast_parse fn with
  | [] => false
  | _ :: _ => true
  end.


(** [registers s enums k v]: the scan of [s], started from the registry
    [enums], gets to execute [self.enums[k] = v] (line 116 of the source)
    before it ends, normally or with an exception.  That is the case for
    an enumeration class whose member set was computed and does not
    conflict with the registry at that point, and for whatever the walk of
    its body registers next; in a list of statements, for what the first
    one registers and, if its visit ends normally, for what the rest
    registers from the registry it left. *)
Inductive registers
    : stmt → gmap string (gset string) → string → gset string → Prop :=
| registers_ClassDef (name : string) (bases : list expr) (body : list stmt)
    (decorator_list : list expr) (enums : gmap string (gset string))
    (values : gset string) :
    is_enum_class (NStmt (ClassDef name bases body decorator_list)) = true →
    assignment_names (ClassDef name bases body decorator_list) = Ok values →
    enums !! name = None ∨ enums !! name = Some values →
    registers (ClassDef name bases body decorator_list) enums name values
| registers_ClassDef_body (name : string) (bases : list expr)
    (body : list stmt) (decorator_list : list expr)
    (enums : gmap string (gset string)) (values : gset string)
    (k : string) (v : gset string) :
    is_enum_class (NStmt (ClassDef name bases body decorator_list)) = true →
    assignment_names (ClassDef name bases body decorator_list) = Ok values →
    enums !! name = None ∨ enums !! name = Some values →
    registers_list body (<[name := values]> enums) k v →
    registers (ClassDef name bases body decorator_list) enums k v
| registers_FunctionDef (name : string) (body : list stmt)
    (decorator_list : list expr) (enums : gmap string (gset string))
    (k : string) (v : gset string) :
    registers_list body enums k v →
    registers (FunctionDef name body decorator_list) enums k v
| registers_If_body (test : expr) (body orelse : list stmt)
    (enums : gmap string (gset string)) (k : string) (v : gset string) :
    registers_list body enums k v →
    registers (If test body orelse) enums k v
| registers_If_orelse (test : expr) (body orelse : list stmt)
    (enums enums1 : gmap string (gset string)) (k : string)
    (v : gset string) :
    EnumCollectorVisitor.visit_stmts body enums = (enums1, Ok ()) →
    registers_list orelse enums1 k v →
    registers (If test body orelse) enums k v
with registers_list
    : list stmt → gmap string (gset string) → string → gset string → Prop :=
| registers_head (s : stmt) (ss : list stmt)
    (enums : gmap string (gset string)) (k : string) (v : gset string) :
    registers s enums k v → registers_list (s :: ss) enums k v
| registers_tail (s : stmt) (ss : list stmt)
    (enums enums1 : gmap string (gset string)) (k : string)
    (v : gset string) :
    EnumCollectorVisitor.visit_stmt s enums = (enums1, Ok ()) →
    registers_list ss enums1 k v →
    registers_list (s :: ss) enums k v.

(** * Sample inputs *)

Definition newline : string := String "010"%char "".

(** Some of the names in [dir(Enum)] and [vars(Enum)]. *)
Definition sample_oklist : gset string :=
  list_to_set ["__class__"; "__doc__"; "__members__"; "__module__";
               "__name__"; "_missing_"; "name"; "value"].

(** [decl.py]: an enumeration with two members. *)
Definition decl_text : string :=
  "class Foo(Enum):" +:+ newline +:+
  "    a = 1" +:+ newline +:+
  "    b = 2" +:+ newline.

Definition decl_Foo : stmt :=
  ClassDef "Foo" [Name "Enum" 1]
    [Assign [Name "a" 2] (Constant (CInt 1) 2);
     Assign [Name "b" 3] (Constant (CInt 2) 3)] [].

Definition decl_tree : module := ModuleDef [decl_Foo].

(** [use.py]: a declared member, two misspelt ones on one line, and a
    built-in member. *)
Definition use_text : string :=
  "x = Foo.a" +:+ newline +:+
  "y = Foo.c + Foo.d" +:+ newline +:+
  "z = Foo.name" +:+ newline.

Definition use_tree : module :=
  ModuleDef
    [Assign [Name "x" 1] (Attribute (Name "Foo" 1) "a" 1);
     Assign [Name "y" 2]
       (BinOp (Attribute (Name "Foo" 2) "c" 2)
              (Attribute (Name "Foo" 2) "d" 2) 2);
     Assign [Name "z" 3] (Attribute (Name "Foo" 3) "name" 3)].

(** The class of the repository's [test_assignment_names]. *)
Definition test_Foo : stmt :=
  ClassDef "Foo" [Name "Enum" 2]
    [Assign [Name "x" 3; Name "y" 3; Attribute (Name "r" 3) "s" 3]
            (Constant (CStr "xy") 3);
     Assign [Name "z" 4] (Constant (CStr "z") 4);
     FunctionDef "something"
       [Assign [Name "var" 7] (Constant (CInt 1) 7)] []] [].

(** The class of the repository's [test_is_enum_class]. *)
Definition test_Foo_bases : stmt :=
  ClassDef "Foo" [Name "Enum" 2; Name "SomethingElse" 2]
    [Assign [Name "x" 3] (Constant (CStr "x") 3)] [].

(** [bad.py]: not Python. *)
Definition bad_text : string := "def (".

(** [dup.py]: a sound enumeration followed by one with a repeated item. *)
Definition dup_text : string :=
  "class A(Enum):" +:+ newline +:+
  "    x = 1" +:+ newline +:+
  "class B(Enum):" +:+ newline +:+
  "    y = 1" +:+ newline +:+
  "    y = 2" +:+ newline.

Definition dup_tree : module :=
  ModuleDef
    [ClassDef "A" [Name "Enum" 1] [Assign [Name "x" 2] (Constant (CInt 1) 2)] [];
     ClassDef "B" [Name "Enum" 3]
       [Assign [Name "y" 4] (Constant (CInt 1) 4);
        Assign [Name "y" 5] (Constant (CInt 2) 5)] []].

(** [redecl.py]: [Foo] again, with one member only. *)
Definition redecl_text : string :=
  "class Foo(Enum):" +:+ newline +:+
  "    a = 1" +:+ newline.

Definition redecl_Foo : stmt :=
  ClassDef "Foo" [Name "Enum" 1]
    [Assign [Name "a" 2] (Constant (CInt 1) 2)] [].

Definition redecl_tree : module := ModuleDef [redecl_Foo].

(** [places.py]: enumerations in a plain class, in a function, at top level
    and in another enumeration. *)
Definition Hidden : stmt :=
  ClassDef "Hidden" [Name "Enum" 2]
    [Assign [Name "h" 3] (Constant (CInt 1) 3)] [].

Definition InFunction : stmt :=
  ClassDef "InFunction" [Name "Enum" 5]
    [Assign [Name "i" 6] (Constant (CInt 1) 6)] [].

Definition Inner : stmt :=
  ClassDef "Inner" [Name "Enum" 9]
    [Assign [Name "n" 10] (Constant (CInt 1) 10)] [].

Definition Top : stmt :=
  ClassDef "Top" [Name "Enum" 7]
    [Assign [Name "t" 8] (Constant (CInt 1) 8); Inner] [].

Definition places_tree : module :=
  ModuleDef
    [ClassDef "Outer" [Name "object" 1] [Hidden] [];
     FunctionDef "f" [InFunction] [];
     Top].

(** [nested.py]: [w = f(Foo.bogus).x], an access inside the base of
    another. *)
Definition nested_access : expr := Attribute (Name "Foo" 1) "bogus" 1.

Definition nested_tree : module :=
  ModuleDef
    [Assign [Name "w" 1]
       (Attribute (Call (Name "f" 1) [nested_access] 1) "x" 1)].

Definition nested_text : string := "w = f(Foo.bogus).x" +:+ newline.

(** A file system holding these files, and a parser that knows them. *)
Definition sample_read_file (fn : string) : string :=
  if String.eqb fn "decl.py" then decl_text
  else if String.eqb fn "use.py" then use_text
  else if String.eqb fn "bad.py" then bad_text
  else if String.eqb fn "dup.py" then dup_text
  else if String.eqb fn "redecl.py" then redecl_text
  else if String.eqb fn "nested.py" then nested_text
  else "".

Definition sample_ast_parse (text : string) : option module :=
  if String.eqb text decl_text then Some decl_tree
  else if String.eqb text use_text then Some use_tree
  else if String.eqb text dup_text then Some dup_tree
  else if String.eqb text redecl_text then Some redecl_tree
  else if String.eqb text nested_text then Some nested_tree
  else if String.eqb text "" then Some (ModuleDef [])
  else None.

(** The registry [decl.py] gives. *)
Definition sample_enums : gmap string (gset string) :=
  {[ "Foo" := {[ "a"; "b" ]} ]}.

(** The checker after [checkfile("use.py")]. *)
Definition sample_checked : EnumChecker :=
  (checkfile sample_oklist sample_read_file sample_ast_parse
             (EnumChecker_init sample_enums) "use.py").1.

(** A checker whose second flagged node carries a line number past the end
    of the text of [use.py]. *)
Definition sample_overrun : EnumChecker :=
  mkEnumChecker sample_enums
    [Attribute (Name "Foo" 2) "c" 2; Attribute (Name "Foo" 9) "d" 9]
    (Some "use.py") use_text.

(** The registry after [dup.py]. *)
Definition dup_enums : gmap string (gset string) := {[ "A" := {[ "x" ]} ]}.

(** [os.linesep] on Windows. *)
Definition crlf : string := String "013"%char (String "010"%char "").

(** [win.py]: a misspelt member on each of its two lines.  [win_text] is the
    text as [open(filename, "r").read()] returns it: in text mode every
    line ending of the file comes out as a single newline character. *)
Definition win_text : string :=
  "x = Foo.zz" +:+ newline +:+
  "y = Foo.yy" +:+ newline.

Definition win_tree : module :=
  ModuleDef
    [Assign [Name "x" 1] (Attribute (Name "Foo" 1) "zz" 1);
     Assign [Name "y" 2] (Attribute (Name "Foo" 2) "yy" 2)].

(** The checker after [checkfile("win.py")]. *)
Definition win_checked : EnumChecker :=
  (checkfile sample_oklist (λ _, win_text) (λ _, Some win_tree)
             (EnumChecker_init sample_enums) "win.py").1.

(** * Properties *)

(** ** The usage scanner *)

Module CheckerFacts.
Import EnumCheckerVisitor.

Section Facts.
Variable oklist : gset string.
Variable enums : gmap string (gset string).

Abbreviation visit_expr := (visit_expr oklist enums).
Abbreviation visit_exprs := (visit_exprs oklist enums).
Abbreviation visit_stmt := (visit_stmt oklist enums).
Abbreviation visit_stmts := (visit_stmts oklist enums).

(** A walk only ever appends to [badnodes]. *)
Lemma fold_left_appends {A : Type} (f : A → list expr → list expr)
    (l : list A) :
  Forall (λ x, ∀ b, f x b = b ++ f x []) l →
  ∀ b, fold_left (λ b x, f x b) l b = b ++ fold_left (λ b x, f x b) l [].
Proof.
  induction 1 as [|x l Hx _ IH]; intros b; simpl.
  - by rewrite app_nil_r.
  - rewrite IH, (IH (f x [])), Hx. by rewrite app_assoc.
Qed.

Lemma visit_expr_appends (e : expr) (b : list expr) :
  visit_expr e b = b ++ visit_expr e [].
Proof.
  revert b. induction e as
    [id l|value attr l IH|func args l IHf IHa|value slice l IHv IHs
    |c l|elts l IH|x y l IHx IHy] using expr_rect'; intros b; simpl.
  - by rewrite app_nil_r.
  - unfold visit_Attribute.
    destruct (match value with
              | Name id _ => Some id
              | Attribute _ attr' _ => Some attr'
              | _ => None
              end) as [cls|]; [|by rewrite app_nil_r].
    destruct (enums !! cls) as [members|]; [|by apply IH].
    destruct (_ && _); [|by apply IH].
    rewrite IH, (IH ([] ++ _)). simpl. by rewrite <- app_assoc.
  - rewrite (fold_left_appends visit_expr args IHa).
    rewrite (fold_left_appends visit_expr args IHa (visit_expr func [])).
    rewrite IHf. by rewrite app_assoc.
  - rewrite IHs, (IHs (visit_expr value [])), IHv. by rewrite app_assoc.
  - by rewrite app_nil_r.
  - by apply (fold_left_appends visit_expr).
  - rewrite IHy, (IHy (visit_expr x [])), IHx. by rewrite app_assoc.
Qed.

Lemma visit_exprs_appends (es : list expr) (b : list expr) :
  visit_exprs es b = b ++ visit_exprs es [].
Proof.
  apply (fold_left_appends visit_expr), Forall_forall.
  intros e _ b'. apply visit_expr_appends.
Qed.

Lemma visit_exprs_cons (e : expr) (es : list expr) (b : list expr) :
  visit_exprs (e :: es) b = visit_exprs es (visit_expr e b).
Proof. reflexivity. Qed.

Lemma fold_left_visit_size (es : list expr) :
  Forall (λ e, ∀ n, n ∈ visit_expr e [] → (expr_size n ≤ expr_size e)%nat) es →
  ∀ n, n ∈ fold_left (λ b e, visit_expr e b) es [] →
       (expr_size n ≤ list_sum (map expr_size es))%nat.
Proof.
  induction 1 as [|e es He _ IH]; intros n; simpl.
  - by intros ?%elem_of_nil.
  - rewrite (fold_left_appends visit_expr); [|apply Forall_forall;
      intros ? _ ?; apply visit_expr_appends].
    intros [Hn%He|Hn%IH]%elem_of_app; lia.
Qed.

(** Whatever a walk of [e] flags is a node of [e]. *)
Lemma visit_expr_size (e n : expr) :
  n ∈ visit_expr e [] → (expr_size n ≤ expr_size e)%nat.
Proof.
  revert n. induction e as
    [id l|value attr l IH|func args l IHf IHa|value slice l IHv IHs
    |c l|elts l IH|x y l IHx IHy] using expr_rect'; intros n; simpl.
  - by intros ?%elem_of_nil.
  - unfold visit_Attribute.
    destruct (match value with
              | Name id _ => Some id
              | Attribute _ attr' _ => Some attr'
              | _ => None
              end) as [cls|]; [|by intros ?%elem_of_nil].
    assert (n ∈ visit_expr value [] → (expr_size n ≤ S (expr_size value))%nat)
      as Hbelow by (intros ?%IH; lia).
    destruct (enums !! cls) as [members|]; [|done].
    destruct (_ && _); [|done].
    rewrite visit_expr_appends. simpl.
    intros [->|?]%elem_of_cons; [done|auto].
  - rewrite (fold_left_appends visit_expr); [|apply Forall_forall;
      intros ? _ ?; apply visit_expr_appends].
    intros [Hn%IHf|Hn%(fold_left_visit_size _ IHa)]%elem_of_app; lia.
  - rewrite visit_expr_appends.
    intros [Hn%IHv|Hn%IHs]%elem_of_app; lia.
  - by intros ?%elem_of_nil.
  - intros Hn%(fold_left_visit_size _ IH). lia.
  - rewrite visit_expr_appends.
    intros [Hn%IHx|Hn%IHy]%elem_of_app; lia.
Qed.

Lemma flagged_access_test (value : expr) (attr : string) (cls : string)
    (members : gset string) :
  candidate value = Some cls → enums !! cls = Some members →
  bool_decide (attr ∉ members) && bool_decide (attr ∉ oklist) = true ↔
  flagged_access oklist enums value attr.
Proof.
  intros Hc Hm. rewrite andb_true_iff, !bool_decide_eq_true. split.
  - intros [? ?]. by exists cls, members.
  - intros (cls' & members' & Hc' & Hm' & ? & ?).
    rewrite Hc in Hc'. injection Hc' as <-. rewrite Hm in Hm'.
    by injection Hm' as <-.
Qed.

Lemma flagged_access_dec (value : expr) (attr : string) :
  Decision (flagged_access oklist enums value attr).
Proof.
  destruct (candidate value) as [cls|] eqn:Hc.
  - destruct (enums !! cls) as [members|] eqn:Hm.
    + destruct (bool_decide (attr ∉ members) && bool_decide (attr ∉ oklist))
        eqn:Ht.
      * left. by apply (flagged_access_test value attr cls members).
      * right. intros Hf%(flagged_access_test value attr cls members); [|done..].
        congruence.
    + right. intros (cls' & members' & Hc' & Hm' & _).
      rewrite Hc in Hc'. injection Hc' as <-. congruence.
  - right. intros (cls' & members' & Hc' & _). congruence.
Qed.

(** C1.  Visiting an attribute access [node = value.attr] appends [node]
    to the flagged nodes if and only if the access is a defect in the
    sense of [flagged_access]: the base is a plain identifier or a dotted
    path, the candidate class name it gives is a key of the registry, and
    [attr] is neither a registered member of that class nor on the
    allow-list.  Everything else the visit appends ([below]) comes from
    the nodes under [node] and is never [node] itself.  In particular an
    access whose candidate name is not a key, whose member is registered,
    or whose member is on the allow-list is not recorded. *)
Theorem visit_Attribute_flags_iff_defect (value : expr) (attr : string)
    (l : Z) (badnodes : list expr) :
  let node := Attribute value attr l in
  (node ∈ visit_expr node [] ↔ flagged_access oklist enums value attr) ∧
  (∃ below, (node ∉ below) ∧
     (flagged_access oklist enums value attr →
        visit_expr node badnodes = badnodes ++ node :: below) ∧
     (¬ flagged_access oklist enums value attr →
        visit_expr node badnodes = badnodes ++ below)) ∧
  (∀ cls, candidate value = Some cls →
     enums !! cls = None ∨
     (∃ members, enums !! cls = Some members ∧ attr ∈ members) ∨
     attr ∈ oklist →
     node ∉ visit_expr node []).
Proof.
  intros node.
  assert (node ∉ visit_expr value []) as Hfresh.
  { intros Hin%visit_expr_size. simpl in Hin. lia. }
  assert (∃ below, (node ∉ below) ∧
     (flagged_access oklist enums value attr →
        ∀ b, visit_expr node b = b ++ node :: below) ∧
     (¬ flagged_access oklist enums value attr →
        ∀ b, visit_expr node b = b ++ below)) as (below & Hbelow & Hyes & Hno).
  { subst node. simpl. unfold visit_Attribute.
    fold (candidate value).
    destruct (candidate value) as [cls|] eqn:Hc.
    - destruct (enums !! cls) as [members|] eqn:Hm.
      + pose proof (flagged_access_test value attr cls members Hc Hm) as Ht.
        exists (visit_expr value []). split; [done|].
        destruct (_ && _); split.
        * intros _ b. rewrite visit_expr_appends.
          by rewrite <- app_assoc.
        * intros []. by apply Ht.
        * intros ?%Ht. done.
        * intros _ b. apply visit_expr_appends.
      + exists (visit_expr value []). split; [done|]. split.
        * intros (cls' & members' & Hc' & Hm' & _).
          rewrite Hc in Hc'. injection Hc' as <-. congruence.
        * intros _ b. apply visit_expr_appends.
    - exists []. split; [by intros ?%elem_of_nil|]. split.
      + intros (cls' & members' & Hc' & _). congruence.
      + intros _ b. by rewrite app_nil_r. }
  assert (node ∈ visit_expr node [] ↔ flagged_access oklist enums value attr)
    as Hiff.
  { split.
    - intros Hin.
      destruct (flagged_access_dec value attr) as [|Hn]; [done|].
      rewrite (Hno Hn) in Hin. simpl in Hin. done.
    - intros Hf. rewrite (Hyes Hf). simpl. apply elem_of_cons. by left. }
  split; [done|]. split.
  - exists below. split; [done|]. split; intros H; [by apply Hyes|by apply Hno].
  - intros cls Hc Hcase. rewrite Hiff.
    intros (cls' & members' & Hc' & Hm' & Hnm & Hnok).
    rewrite Hc in Hc'. injection Hc' as <-.
    destruct Hcase as [Hnone|[(members & Hm & Hin)|Hok]].
    + congruence.
    + rewrite Hm in Hm'. injection Hm' as <-. done.
    + done.
Qed.
End Facts.
End CheckerFacts.

(** ** Python built-ins *)

Section Builtins.
Local Arguments String.append : simpl nomatch.

Lemma py_index_in_bounds {A : Type} (l : list A) (i : Z) :
  0 ≤ i < Z.of_nat (length l) →
  ∃ x, l !! Z.to_nat i = Some x ∧ py_index l i = Ok x.
Proof.
  intros Hi. unfold py_index.
  destruct (l !! Z.to_nat i) as [x|] eqn:Hx.
  - exists x. split; [done|]. cbv zeta.
    assert ((i <? 0) = false) as Hlt by (apply Z.ltb_ge; lia).
    assert ((Z.of_nat (length l) <=? i) = false) as Hle
      by (apply Z.leb_gt; lia).
    rewrite Hlt. simpl. by rewrite Hlt, Hle, Hx.
  - apply lookup_ge_None in Hx. lia.
Qed.

Lemma py_index_beyond {A : Type} (l : list A) (i : Z) :
  Z.of_nat (length l) ≤ i → py_index l i = Raise IndexError.
Proof.
  intros Hi. unfold py_index. cbv zeta.
  assert ((i <? 0) = false) as Hlt by (apply Z.ltb_ge; lia).
  assert ((Z.of_nat (length l) <=? i) = true) as Hle by (apply Z.leb_le; lia).
  rewrite Hlt. simpl. by rewrite Hlt, Hle.
Qed.

Lemma append_nil_r (s : string) : s +:+ "" = s.
Proof. induction s as [|c s IH]; simpl; congruence. Qed.

Lemma append_assoc (s t u : string) : (s +:+ t) +:+ u = s +:+ t +:+ u.
Proof. induction s as [|c s IH]; simpl; congruence. Qed.

Lemma prefix_append (sep s : string) :
  String.prefix sep s = true → ∃ rest, s = sep +:+ rest.
Proof.
  revert s. induction sep as [|c sep IH]; intros s; simpl.
  - intros _. by exists s.
  - destruct s as [|d s]; simpl; [done|].
    destruct (ascii_dec c d) as [->|]; [|done].
    intros [rest ->]%IH. by exists rest.
Qed.

Lemma split_from_cons (sep : string) (k : nat) (cur : string) (c : ascii)
    (s : string) :
  split_from sep k cur (String c s) =
  match k with
  | S k => split_from sep k cur s
  | O =>
      if String.prefix sep (String c s)
      then cur :: split_from sep (String.length sep - 1) "" s
      else split_from sep 0 (cur +:+ String c "") s
  end.
Proof. reflexivity. Qed.

Lemma split_from_nonempty (sep : string) (s : string) (k : nat)
    (cur : string) :
  split_from sep k cur s ≠ [].
Proof.
  revert k cur. induction s as [|c s IH]; intros k cur; [done|].
  rewrite split_from_cons. destruct k; [|apply IH].
  destruct (String.prefix sep (String c s)); [done|apply IH].
Qed.

Lemma concat_cons (sep p : string) (ps : list string) :
  ps ≠ [] → String.concat sep (p :: ps) = p +:+ sep +:+ String.concat sep ps.
Proof. by destruct ps. Qed.

(** Joining the pieces of a split with the separator gives the text back:
    the pieces are the stretches of text between the separators. *)
Lemma split_from_concat (sep : string) (t : string) :
  sep ≠ "" →
  ∀ k cur pre s, t = pre +:+ s → String.length pre = k →
    String.concat sep (split_from sep k cur t) = cur +:+ s.
Proof.
  intros Hsep. induction t as [|c t IH]; intros k cur pre s Ht Hk.
  - destruct pre; [|done]. simpl in Ht. subst. simpl.
    by rewrite append_nil_r.
  - rewrite split_from_cons. destruct k as [|k].
    + destruct pre; [|done]. simpl in Ht. subst s. clear Hk.
      destruct (String.prefix sep (String c t)) eqn:Hp.
      * apply prefix_append in Hp as [rest Hrest].
        destruct sep as [|d sep]; [done|].
        simpl in Hrest. injection Hrest as -> ->.
        rewrite concat_cons by apply split_from_nonempty.
        replace (String.length (String d sep) - 1)%nat
          with (String.length sep) by (simpl; lia).
        by rewrite (IH (String.length sep) "" sep rest).
      * rewrite (IH 0%nat (cur +:+ String c "") "" t); [|done..].
        by rewrite append_assoc.
    + destruct pre as [|d pre]; [done|]. simpl in Ht, Hk.
      injection Ht as -> ->. injection Hk as Hk.
      by apply (IH k cur pre s).
Qed.

Lemma str_split_concat (s sep : string) (pieces : list string) :
  str_split s sep = Ok pieces → String.concat sep pieces = s.
Proof.
  unfold str_split. destruct sep as [|c sep']; [done|].
  intros [= <-].
  by rewrite (split_from_concat (String c sep') s ltac:(done) 0%nat "" "" s).
Qed.
End Builtins.

(** ** The report builder *)

Section Report.
Variable linesep : string.

Lemma results_loop_in_bounds (codelines : list string)
    (badnodes : list expr) :
  Forall (λ n, 1 ≤ lineno n ≤ Z.of_nat (length codelines)) badnodes →
  ∃ pairs, results_loop codelines badnodes = (pairs, None) ∧
    pairs.*1 = lineno <$> badnodes ∧
    Forall (λ p, codelines !! Z.to_nat (p.1 - 1) = Some p.2) pairs.
Proof.
  induction 1 as [|n badnodes Hn _ (pairs & Hloop & Hfst & Hsnd)]; simpl.
  - by exists [].
  - destruct (py_index_in_bounds codelines (lineno n - 1)) as (text & Hl & ->);
      [lia|].
    rewrite Hloop. exists ((lineno n, text) :: pairs).
    split; [done|]. split; [by rewrite fmap_cons, Hfst|].
    by constructor.
Qed.

Lemma results_split (self : EnumChecker) (codelines : list string) :
  str_split (code self) linesep = Ok codelines →
  results linesep self = results_loop codelines (visitor_badnodes self).
Proof.
  intros Hsplit. unfold results. rewrite Hsplit.
  by destruct (visitor_badnodes self).
Qed.

(** The index is not checked: a flagged node on a line past the last
    piece of the split ends the report with [IndexError]. *)
Lemma results_raises_past_last_line (self : EnumChecker)
    (codelines : list string) (n : expr) (rest : list expr) :
  str_split (code self) linesep = Ok codelines →
  visitor_badnodes self = n :: rest →
  Z.of_nat (length codelines) < lineno n →
  results linesep self = ([], Some IndexError).
Proof.
  intros Hsplit Hbad Hn. rewrite (results_split self codelines Hsplit), Hbad.
  simpl. by rewrite py_index_beyond by lia.
Qed.

Lemma summary_counts (self : EnumChecker) :
  ∃ lines : list Z,
    NoDup lines ∧
    (∀ k, k ∈ lines ↔ ∃ n, n ∈ visitor_badnodes self ∧ lineno n = k) ∧
    summary self = (length (visitor_badnodes self), length lines).
Proof.
  exists (elements (list_to_set (lineno <$> visitor_badnodes self) : gset Z)).
  split; [apply NoDup_elements|]. split; [|done].
  intros k. rewrite elem_of_elements, elem_of_list_to_set, list_elem_of_fmap.
  split; intros (n & ? & ?); by exists n.
Qed.
End Report.

(** What [checkfile], [summary] and [results] give for one file when the
    line numbers of the flagged nodes happen to lie within the pieces the
    text splits into at [linesep], whatever [linesep] is.  The flagged
    nodes are those of a walk of that file's tree alone.  [summary] is the
    number of flagged nodes together with the number of distinct line
    numbers among them.  [results] yields one pair per flagged node, in
    the order they were flagged: the node's line number [k] and the [k]-th
    piece of the split, counting from one.  With no flagged node nothing
    is yielded.  Whether that piece is the line of the source depends on
    [linesep]: see [results_splits_at_os_linesep]. *)
Theorem checkfile_summary_results (oklist : gset string) (linesep : string)
    (read_file : string → string) (ast_parse : string → option module)
    (self0 self : EnumChecker) (fn : string) (codelines : list string) :
  checkfile oklist read_file ast_parse self0 fn = (self, Ok ()) →
  str_split (read_file fn) linesep = Ok codelines →
  Forall (λ n, 1 ≤ lineno n ≤ Z.of_nat (length codelines))
         (visitor_badnodes self) →
  ∃ tree flagged,
    ast_parse (read_file fn) = Some tree ∧
    flagged = EnumCheckerVisitor.visit_module oklist (visitor_enums self0)
                tree [] ∧
    visitor_badnodes self = flagged ∧
    (∃ lines : list Z,
       NoDup lines ∧
       (∀ k, k ∈ lines ↔ ∃ n, n ∈ flagged ∧ lineno n = k) ∧
       summary self = (length flagged, length lines)) ∧
    String.concat linesep codelines = read_file fn ∧
    (∃ pairs,
       results linesep self = (pairs, None) ∧
       pairs.*1 = lineno <$> flagged ∧
       Forall (λ p, codelines !! Z.to_nat (p.1 - 1) = Some p.2) pairs) ∧
    (flagged = [] → results linesep self = ([], None)).
Proof.
  unfold checkfile. simpl.
  destruct (ast_parse (read_file fn)) as [tree|] eqn:Hparse; [|done].
  intros [= <-] Hsplit Hrange. simpl in *.
  exists tree, (EnumCheckerVisitor.visit_module oklist (visitor_enums self0)
                  tree []).
  split; [done|]. split; [done|]. split; [done|]. split; [|split; [|split]].
  - apply (summary_counts (mkEnumChecker _ _ _ _)).
  - by apply str_split_concat.
  - rewrite (results_split linesep (mkEnumChecker _ _ _ (read_file fn))
               codelines Hsplit).
    by apply results_loop_in_bounds.
  - intros Hnil. unfold results. simpl. by rewrite Hnil.
Qed.

(** C10.  [results] looks up [codelines[lineno - 1]] for every flagged node,
    where [codelines] is the text split at the line separator.  When every
    flagged node has a line number between one and the number of pieces,
    each of these lookups is within the list and finds the piece at that
    position, so the report runs to its end without [IndexError], with one
    pair per flagged node. *)
Theorem results_index_in_bounds (linesep : string) (self : EnumChecker)
    (codelines : list string) :
  str_split (code self) linesep = Ok codelines →
  Forall (λ n, 1 ≤ lineno n ≤ Z.of_nat (length codelines))
         (visitor_badnodes self) →
  (∀ n, n ∈ visitor_badnodes self →
     0 ≤ lineno n - 1 < Z.of_nat (length codelines) ∧
     ∃ text, codelines !! Z.to_nat (lineno n - 1) = Some text ∧
             py_index codelines (lineno n - 1) = Ok text) ∧
  (results linesep self).2 = None ∧
  length (results linesep self).1 = length (visitor_badnodes self).
Proof.
  intros Hsplit Hrange. split.
  - intros n Hn. rewrite Forall_forall in Hrange. specialize (Hrange n Hn).
    split; [lia|]. apply py_index_in_bounds. lia.
  - rewrite (results_split linesep self codelines Hsplit).
    destruct (results_loop_in_bounds codelines _ Hrange)
      as (pairs & -> & Hfst & _).
    split; [done|]. simpl.
    by rewrite <- (length_fmap fst pairs), Hfst, length_fmap.
Qed.

(** C8.  [results] splits the text at [os.linesep], but the text was read
    in text mode and holds newline characters only.  Where [os.linesep] is
    the newline character the pairs are as the claim has them: for
    [win.py], line 1 with ["x = Foo.zz"] and line 2 with ["y = Foo.yy"].
    Where [os.linesep] is carriage return and newline the split has one
    piece: the node on line 1 is paired with the whole text of the file,
    the node on line 2 ends the report with [IndexError], and the error
    leaves [check_files].  [summary] is not affected. *)
Theorem results_splits_at_os_linesep :
  visitor_badnodes win_checked =
    [Attribute (Name "Foo" 1) "zz" 1; Attribute (Name "Foo" 2) "yy" 2] ∧
  code win_checked = win_text ∧
  summary win_checked = (2%nat, 2%nat) ∧
  str_split win_text newline = Ok ["x = Foo.zz"; "y = Foo.yy"; ""] ∧
  results newline win_checked =
    ([(1, "x = Foo.zz"); (2, "y = Foo.yy")], None) ∧
  str_split win_text crlf = Ok [win_text] ∧
  results crlf win_checked = ([(1, win_text)], Some IndexError) ∧
  (check_files sample_oklist crlf (λ _, win_text) (λ _, Some win_tree)
     ["win.py"] sample_enums []).2 = Raise IndexError ∧
  (check_files sample_oklist newline (λ _, win_text) (λ _, Some win_tree)
     ["win.py"] sample_enums []).2 = Ok 1%nat.
Proof. repeat split; vm_compute; reflexivity. Qed.

(** ** The declaration scanner: duplicate items *)

Section Duplicates.
Lemma occurrences_cons (k x : string) (names : list string) :
  occurrences k (x :: names) =
  ((if decide (x = k) then 1 else 0) + occurrences k names)%nat.
Proof.
  unfold occurrences. rewrite filter_cons. by destruct (decide (x = k)).
Qed.

Lemma occurrences_pos (k : string) (names : list string) :
  (0 < occurrences k names)%nat ↔ k ∈ names.
Proof.
  unfold occurrences. split.
  - destruct (filter _ names) as [|x l] eqn:Hf; simpl; [lia|]. intros _.
    assert (x ∈ filter (λ x, x = k) names) as Hx
      by (rewrite Hf; apply elem_of_cons; by left).
    by apply list_elem_of_filter in Hx as [-> ?].
  - intros Hk.
    assert (k ∈ filter (λ x, x = k) names) as Hx
      by (by apply list_elem_of_filter).
    destruct (filter _ names); [by apply elem_of_nil in Hx|simpl; lia].
Qed.

Lemma NoDup_occurrences (names : list string) :
  NoDup names ↔ ∀ k, (occurrences k names ≤ 1)%nat.
Proof.
  induction names as [|x names IH].
  - split; [intros _ k; unfold occurrences; simpl; lia|constructor].
  - rewrite NoDup_cons, IH. split.
    + intros [Hx Hle] k. rewrite occurrences_cons.
      destruct (decide (x = k)) as [<-|]; [|apply Hle].
      destruct (occurrences x names) eqn:Ho; [lia|].
      exfalso. apply Hx, occurrences_pos. lia.
    + intros Hle. split.
      * intros Hx%occurrences_pos. specialize (Hle x).
        rewrite occurrences_cons in Hle.
        destruct (decide (x = x)); [lia|done].
      * intros k. specialize (Hle k). rewrite occurrences_cons in Hle. lia.
Qed.

Lemma counter_get_add (name k : string) (counts : list (string * nat)) :
  counter_get k (counter_add name counts) =
  (counter_get k counts + (if decide (name = k) then 1 else 0))%nat.
Proof.
  induction counts as [|[k' c] counts IH]; simpl.
  - destruct (String.eqb_spec name k), (decide (name = k)); done || lia.
  - destruct (String.eqb_spec k' name) as [->|Hne]; simpl.
    + destruct (String.eqb_spec name k), (decide (name = k)); done || lia.
    + destruct (String.eqb_spec k' k) as [->|]; [|done].
      destruct (decide (name = k)); [done|lia].
Qed.

Lemma counter_get_fold (k : string) (names : list string)
    (counts : list (string * nat)) :
  counter_get k (fold_left (λ counts name, counter_add name counts)
                           names counts) =
  (counter_get k counts + occurrences k names)%nat.
Proof.
  revert counts. induction names as [|x names IH]; intros counts; simpl.
  - unfold occurrences. simpl. lia.
  - rewrite IH, counter_get_add, occurrences_cons. lia.
Qed.

Lemma counter_get_Counter (k : string) (names : list string) :
  counter_get k (Counter names) = occurrences k names.
Proof. unfold Counter. by rewrite counter_get_fold. Qed.

Lemma counter_add_keys (name : string) (counts : list (string * nat)) :
  (counter_add name counts).*1 =
  counts.*1 ++ (if decide (name ∈ counts.*1) then [] else [name]).
Proof.
  induction counts as [|[k c] counts IH]; [done|].
  cbn [counter_add].
  destruct (String.eqb_spec k name) as [->|Hne]; rewrite !fmap_cons;
    cbn [fst].
  - rewrite decide_True by (apply elem_of_cons; by left).
    by rewrite app_nil_r.
  - rewrite IH. cbn [app]. f_equal. f_equal.
    destruct (decide (name ∈ counts.*1)) as [Hin|Hni].
    + rewrite decide_True; [done|]. apply elem_of_cons. by right.
    + rewrite decide_False; [done|].
      intros [?|?]%elem_of_cons; congruence.
Qed.

Lemma counter_add_NoDup (name : string) (counts : list (string * nat)) :
  NoDup counts.*1 → NoDup (counter_add name counts).*1.
Proof.
  intros Hnd. rewrite counter_add_keys.
  destruct (decide (name ∈ counts.*1)); [by rewrite app_nil_r|].
  apply NoDup_app. split; [done|]. split; [|apply NoDup_singleton].
  intros x Hx ->%list_elem_of_singleton. done.
Qed.

Lemma Counter_NoDup (names : list string) : NoDup (Counter names).*1.
Proof.
  unfold Counter.
  assert (∀ counts, NoDup counts.*1 →
    NoDup (fold_left (λ counts name, counter_add name counts)
                     names counts).*1) as H.
  { induction names as [|x names IH]; intros counts Hc; simpl; [done|].
    by apply IH, counter_add_NoDup. }
  apply H. constructor.
Qed.

Lemma counter_get_elem (k : string) (c : nat)
    (counts : list (string * nat)) :
  NoDup counts.*1 → (k, c) ∈ counts → counter_get k counts = c.
Proof.
  induction counts as [|[k' c'] counts IH]; simpl.
  - by intros _ ?%elem_of_nil.
  - intros [Hk' Hnd]%NoDup_cons [[= -> ->]|Hin]%elem_of_cons.
    + by rewrite String.eqb_refl.
    + destruct (String.eqb_spec k' k) as [->|]; [|by apply IH].
      exfalso. apply Hk'. apply list_elem_of_fmap. by exists (k, c).
Qed.

Lemma counter_get_pos (k : string) (counts : list (string * nat)) :
  (0 < counter_get k counts)%nat → (k, counter_get k counts) ∈ counts.
Proof.
  induction counts as [|[k' c'] counts IH]; simpl; [lia|].
  destruct (String.eqb_spec k' k) as [->|].
  - intros _. apply elem_of_cons. by left.
  - intros ?%IH. apply elem_of_cons. by right.
Qed.

Lemma detect_duplicates_loop_ok (items : list (string * nat)) :
  detect_duplicates_loop items = Ok () ↔
  ∀ k c, (k, c) ∈ items → (c ≤ 1)%nat.
Proof.
  induction items as [|[k c] items IH]; simpl.
  - split; [by intros _ ? ? ?%elem_of_nil|done].
  - destruct (Nat.ltb_spec 1 c) as [Hc|Hc].
    + split; [done|]. intros H. specialize (H k c). 
      assert (c ≤ 1)%nat by (apply H, elem_of_cons; by left). lia.
    + rewrite IH. split.
      * intros H k' c' [[= -> ->]|?]%elem_of_cons; [done|by apply (H k')].
      * intros H k' c' ?. apply (H k'), elem_of_cons. by right.
Qed.

Lemma detect_duplicates_loop_raise (items : list (string * nat)) (e : exn) :
  detect_duplicates_loop items = Raise e →
  ∃ k c, e = DuplicateEnumItemError k ∧ (k, c) ∈ items ∧ (1 < c)%nat.
Proof.
  induction items as [|[k c] items IH]; simpl; [done|].
  destruct (Nat.ltb_spec 1 c) as [Hc|Hc].
  - intros [= <-]. exists k, c. split; [done|]. split; [|done].
    apply elem_of_cons. by left.
  - intros (k' & c' & ? & ? & ?)%IH. exists k', c'.
    split; [done|]. split; [|done]. apply elem_of_cons. by right.
Qed.

(** [detect_duplicates] succeeds on a list without repetition and on no
    other. *)
Lemma detect_duplicates_ok (names : list string) :
  detect_duplicates names = Ok () ↔ NoDup names.
Proof.
  unfold detect_duplicates.
  rewrite detect_duplicates_loop_ok, NoDup_occurrences. split.
  - intros H k. destruct (occurrences k names) as [|n] eqn:Ho; [lia|].
    apply (H k). rewrite <- Ho, <- counter_get_Counter.
    apply counter_get_pos. rewrite counter_get_Counter. lia.
  - intros H k c Hin.
    apply counter_get_elem in Hin; [|apply Counter_NoDup].
    rewrite <- Hin, counter_get_Counter. apply H.
Qed.

(** When it fails, the error names an element that occurs more than
    once. *)
Lemma detect_duplicates_raise (names : list string) (e : exn) :
  detect_duplicates names = Raise e →
  ∃ k, e = DuplicateEnumItemError k ∧ (1 < occurrences k names)%nat.
Proof.
  unfold detect_duplicates.
  intros (k & c & -> & Hin & Hc)%detect_duplicates_loop_raise.
  exists k. split; [done|].
  apply counter_get_elem in Hin; [|apply Counter_NoDup].
  by rewrite <- counter_get_Counter, Hin.
Qed.

(** The repository's [test_detect_duplicates]. *)
Example test_detect_duplicates :
  detect_duplicates ["a"; "b"; "c"] = Ok () ∧
  detect_duplicates ["a"; "b"; "a"; "c"] = Raise (DuplicateEnumItemError "a").
Proof. split; reflexivity. Qed.
End Duplicates.

(** ** The declaration scanner: member names *)

Section AssignmentNames.
Lemma assignment_names_list (body : list stmt) :
  omap Name_id (concat (map Assign_targets (List.filter is_Assign body))) =
  identifier_targets body.
Proof.
  induction body as [|s body IH]; [done|].
  destruct s; simpl; try done.
  rewrite omap_app. by rewrite IH.
Qed.

Lemma identifier_targets_elem (body : list stmt) (x : string) :
  x ∈ identifier_targets body ↔
  ∃ targets value l, Assign targets value ∈ body ∧ Name x l ∈ targets.
Proof.
  induction body as [|s body IH].
  - split; [by intros ?%elem_of_nil|].
    by intros (? & ? & ? & ?%elem_of_nil & _).
  - assert ((∃ targets value l,
               Assign targets value ∈ body ∧ Name x l ∈ targets) →
            ∃ targets value l,
               Assign targets value ∈ s :: body ∧ Name x l ∈ targets)
      as Hweaken.
    { intros (targets & value & l & Hin & Hx). exists targets, value, l.
      split; [|done]. apply elem_of_cons. by right. }
    assert ((∀ targets value, s ≠ Assign targets value) →
            (∃ targets value l,
               Assign targets value ∈ s :: body ∧ Name x l ∈ targets) →
            ∃ targets value l,
               Assign targets value ∈ body ∧ Name x l ∈ targets)
      as Hother.
    { intros Hs (targets & value & l & [Heq|Hin]%elem_of_cons & Hx).
      - by destruct (Hs targets value).
      - by exists targets, value, l. }
    destruct s as [| | |targets value| | | |]; simpl;
      try (rewrite IH; split; [apply Hweaken|by apply Hother]).
    rewrite elem_of_app, IH, list_elem_of_omap. split.
    + intros [(target & Hin & Hid)|H]; [|by apply Hweaken].
      destruct target as [id l| | | | | |]; try done.
      injection Hid as ->. exists targets, value, l.
      split; [apply elem_of_cons; by left|done].
    + intros (targets' & value' & l & [[= <- <-]|Hin]%elem_of_cons & Hx).
      * left. by exists (Name x l).
      * right. by exists targets', value', l.
Qed.
End AssignmentNames.

(** C5.  For a class body in which no identifier is an assignment target
    twice, [assignment_names] returns the set of the plain-identifier
    targets of the assignment statements standing directly in the body: a
    name is in the set exactly when some such statement has it among its
    targets.  Every target of a chained assignment is a target of that
    statement; targets of another shape and statements of another kind
    give no name. *)
Theorem assignment_names_members (name : string) (bases : list expr)
    (body : list stmt) (decorator_list : list expr) :
  NoDup (identifier_targets body) →
  ∃ values,
    assignment_names (ClassDef name bases body decorator_list) = Ok values ∧
    values = list_to_set (identifier_targets body) ∧
    ∀ x, x ∈ values ↔
         ∃ targets value l, Assign targets value ∈ body ∧ Name x l ∈ targets.
Proof.
  intros Hnd. exists (list_to_set (identifier_targets body)).
  split; [|split; [done|]].
  - unfold assignment_names. simpl. rewrite assignment_names_list.
    apply detect_duplicates_ok in Hnd. by rewrite Hnd.
  - intros x. rewrite elem_of_list_to_set. apply identifier_targets_elem.
Qed.

(** The repository's [test_assignment_names]. *)
Example test_assignment_names :
  assignment_names test_Foo = Ok {[ "x"; "y"; "z" ]}.
Proof. vm_compute. reflexivity. Qed.

(** A repeated target makes [assignment_names] fail, naming an identifier
    that is a target more than once. *)
Lemma assignment_names_duplicate (name : string) (bases : list expr)
    (body : list stmt) (decorator_list : list expr) :
  ¬ NoDup (identifier_targets body) →
  ∃ k, assignment_names (ClassDef name bases body decorator_list) =
         Raise (DuplicateEnumItemError k) ∧
       (1 < occurrences k (identifier_targets body))%nat.
Proof.
  intros Hnd. unfold assignment_names. simpl. rewrite assignment_names_list.
  destruct (detect_duplicates (identifier_targets body)) as [[]|e] eqn:Hd.
  - by apply detect_duplicates_ok in Hd.
  - apply detect_duplicates_raise in Hd as (k & -> & Hk). by exists k.
Qed.

(** ** The declaration scanner: recognising an enumeration class *)

(** C7.  [is_enum_class] answers [true] exactly for a class definition that
    has, somewhere in its list of bases, a plain identifier spelled [Enum].
    It answers [false] for every node that is not a class definition and
    for every class definition without such a base; a dotted base
    [enum.Enum] does not count. *)
Theorem is_enum_class_iff (n : node) :
  (is_enum_class n = true ↔
     ∃ name bases body decorator_list l,
       n = NStmt (ClassDef name bases body decorator_list) ∧
       Name "Enum" l ∈ bases) ∧
  (is_enum_class n = false ↔
     ¬ ∃ name bases body decorator_list l,
       n = NStmt (ClassDef name bases body decorator_list) ∧
       Name "Enum" l ∈ bases) ∧
  (∀ name body decorator_list l1 l2,
     is_enum_class
       (NStmt (ClassDef name [Attribute (Name "enum" l1) "Enum" l2] body
                        decorator_list)) = false).
Proof.
  assert (is_enum_class n = true ↔
     ∃ name bases body decorator_list l,
       n = NStmt (ClassDef name bases body decorator_list) ∧
       Name "Enum" l ∈ bases) as Hiff.
  { destruct n as [m|s|e];
      try (split; [done|by intros (? & ? & ? & ? & ? & ? & _)]).
    destruct s as [|name bases body decos| | | | | |];
      try (split; [done|by intros (? & ? & ? & ? & ? & ? & _)]).
    simpl. rewrite existsb_exists. split.
    - intros (base & Hin%list_elem_of_In & Hbase).
      destruct base as [id l| | | | | |]; try done.
      apply String.eqb_eq in Hbase as ->. by exists name, bases, body, decos, l.
    - intros (? & ? & ? & ? & l & [= <- <- <- <-] & Hin).
      exists (Name "Enum" l). split; [by apply list_elem_of_In|done]. }
  split; [done|]. split; [|done].
  rewrite <- Hiff. destruct (is_enum_class n); split; done.
Qed.

(** ** The declaration scanner: walking a tree *)

Module CollectorFacts.
Import EnumCollectorVisitor.

Section Facts.
Lemma visit_stmt_ClassDef (name : string) (bases : list expr)
    (body : list stmt) (decos : list expr) :
  visit_stmt (ClassDef name bases body decos) =
  visit_ClassDef (visit_stmts body) (ClassDef name bases body decos) name.
Proof. reflexivity. Qed.

Lemma visit_stmt_FunctionDef (name : string) (body : list stmt)
    (decos : list expr) :
  visit_stmt (FunctionDef name body decos) = visit_stmts body.
Proof. reflexivity. Qed.

Lemma visit_stmt_If (test : expr) (body orelse : list stmt)
    (enums : gmap string (gset string)) :
  visit_stmt (If test body orelse) enums =
  match visit_stmts body enums with
  | (enums, Ok _) => visit_stmts orelse enums
  | (enums, Raise e) => (enums, Raise e)
  end.
Proof. reflexivity. Qed.

Lemma visit_stmts_cons (s : stmt) (ss : list stmt)
    (enums : gmap string (gset string)) :
  visit_stmts (s :: ss) enums =
  match visit_stmt s enums with
  | (enums, Ok _) => visit_stmts ss enums
  | (enums, Raise e) => (enums, Raise e)
  end.
Proof. reflexivity. Qed.

(** What [visit_ClassDef] does, case by case. *)
Lemma visit_ClassDef_cases (generic_visit : visiting) (node : stmt)
    (name : string) (enums enums' : gmap string (gset string))
    (r : result unit) :
  visit_ClassDef generic_visit node name enums = (enums', r) →
  (is_enum_class (NStmt node) = false ∧ enums' = enums ∧ r = Ok ()) ∨
  (is_enum_class (NStmt node) = true ∧
   ∃ e, assignment_names node = Raise e ∧ enums' = enums ∧ r = Raise e) ∨
  (is_enum_class (NStmt node) = true ∧
   ∃ values registered,
     assignment_names node = Ok values ∧
     enums !! name = Some registered ∧ registered ≠ values ∧
     enums' = enums ∧ r = Raise (DuplicateEnumClassError name)) ∨
  (is_enum_class (NStmt node) = true ∧
   ∃ values,
     assignment_names node = Ok values ∧
     (enums !! name = None ∨ enums !! name = Some values) ∧
     generic_visit (<[name := values]> enums) = (enums', r)).
Proof.
  unfold visit_ClassDef.
  destruct (is_enum_class (NStmt node)); cbn [negb];
    [|intros [= <- <-]; by left].
  destruct (assignment_names node) as [values|e];
    [|intros [= <- <-]; right; left; split; [done|]; by exists e].
  cbv zeta. destruct (enums !! name) as [registered|] eqn:Hlook.
  - case_bool_decide as Hne.
    + intros [= <- <-]. right. right. left. split; [done|].
      by exists values, registered.
    + subst registered.
      intros Hg. right. right. right. split; [done|]. exists values. eauto.
  - intros Hg. right. right. right. split; [done|]. exists values. eauto.
Qed.

Lemma visit_ClassDef_keeps_entries (generic_visit : visiting) (node : stmt)
    (name : string) :
  keeps_entries generic_visit →
  keeps_entries (visit_ClassDef generic_visit node name).
Proof.
  intros Hg enums enums' r
    [(_ & -> & _)|[(_ & e & _ & -> & _)|[(_ & ? & ? & _ & _ & _ & -> & _)
    |(_ & values & _ & Hlook & Hvisit)]]]%visit_ClassDef_cases; try done.
  apply Hg in Hvisit. etrans; [|exact Hvisit].
  destruct Hlook as [Hnone|Hsome].
  - by apply insert_subseteq.
  - by rewrite insert_id.
Qed.

Lemma visit_stmts_keeps_entries (ss : list stmt) :
  Forall (λ s, keeps_entries (visit_stmt s)) ss →
  keeps_entries (visit_stmts ss).
Proof.
  induction 1 as [|s ss Hs _ IH]; intros enums enums' r.
  - by intros [= <- <-].
  - rewrite visit_stmts_cons.
    destruct (visit_stmt s enums) as [enums1 [[]|e]] eqn:Hvisit.
    + intros Hrest%IH. apply Hs in Hvisit. by etrans.
    + intros [= <- <-]. by apply Hs in Hvisit.
Qed.

(** No visit removes or changes an entry of the registry. *)
Lemma visit_stmt_keeps_entries (s : stmt) : keeps_entries (visit_stmt s).
Proof.
  induction s as
    [name body decos IH|name bases body decos IH| | | |test body orelse IHb IHo
    | |] using stmt_rect'; try (by intros enums enums' r [= <- <-]).
  - rewrite visit_stmt_FunctionDef. by apply visit_stmts_keeps_entries.
  - rewrite visit_stmt_ClassDef.
    by apply visit_ClassDef_keeps_entries, visit_stmts_keeps_entries.
  - intros enums enums' r. rewrite visit_stmt_If.
    destruct (visit_stmts body enums) as [enums1 [[]|e]] eqn:Hbody.
    + intros Horelse%(visit_stmts_keeps_entries _ IHo).
      apply (visit_stmts_keeps_entries _ IHb) in Hbody. by etrans.
    + intros [= <- <-]. by apply (visit_stmts_keeps_entries _ IHb) in Hbody.
Qed.

Lemma visit_stmts_keeps (ss : list stmt) : keeps_entries (visit_stmts ss).
Proof.
  apply visit_stmts_keeps_entries, Forall_forall.
  intros s _. apply visit_stmt_keeps_entries.
Qed.

Lemma visit_module_keeps_entries (m : module) :
  keeps_entries (visit_module m).
Proof. destruct m. apply visit_stmts_keeps. Qed.

Lemma visit_stmts_Ok_elem (ss : list stmt) (s : stmt)
    (enums enums' : gmap string (gset string)) :
  visit_stmts ss enums = (enums', Ok ()) → s ∈ ss →
  ∃ enums1 enums2, visit_stmt s enums1 = (enums2, Ok ()) ∧ enums2 ⊆ enums'.
Proof.
  revert enums. induction ss as [|s' ss IH]; intros enums Hvisit Hin.
  - by apply elem_of_nil in Hin.
  - rewrite visit_stmts_cons in Hvisit.
    destruct (visit_stmt s' enums) as [enums1 [[]|e]] eqn:Hs'; [|done].
    apply elem_of_cons in Hin as [->|Hin].
    + exists enums, enums1. split; [done|].
      by apply visit_stmts_keeps in Hvisit.
    + by apply (IH enums1).
Qed.

(** Once the scanner gets to an enumeration class and the walk ends
    without an exception, the class is in the registry with the members
    [assignment_names] gives it. *)
Lemma visit_stmt_collects (s c : stmt) :
  reaches s c →
  ∀ name bases body decos, c = ClassDef name bases body decos →
  is_enum_class (NStmt c) = true →
  ∀ enums enums', visit_stmt s enums = (enums', Ok ()) →
  ∃ values, assignment_names c = Ok values ∧ enums' !! name = Some values.
Proof.
  induction 1 as
    [s|fname fbody fdecos s c Hin _ IH|test tbody orelse s c Hin _ IH
    |test tbody orelse s c Hin _ IH|cname cbases cbody cdecos s c Henum Hin _ IH];
    intros name bases body decos Hc Hcenum enums enums' Hvisit.
  - subst s. rewrite visit_stmt_ClassDef in Hvisit.
    apply visit_ClassDef_cases in Hvisit as
      [(? & _)|[(_ & ? & _ & _ & ?)|[(_ & ? & ? & _ & _ & _ & _ & ?)
      |(_ & values & Hnames & _ & Hvisit)]]]; [congruence|done|done|].
    exists values. split; [done|].
    apply visit_stmts_keeps in Hvisit.
    eapply lookup_weaken; [|exact Hvisit]. apply lookup_insert_eq.
  - rewrite visit_stmt_FunctionDef in Hvisit.
    destruct (visit_stmts_Ok_elem _ _ _ _ Hvisit Hin)
      as (enums1 & enums2 & Hs & Hsub).
    destruct (IH _ _ _ _ Hc Hcenum _ _ Hs) as (values & ? & ?).
    exists values. split; [done|]. by eapply lookup_weaken.
  - rewrite visit_stmt_If in Hvisit.
    destruct (visit_stmts tbody enums) as [enums0 [[]|e]] eqn:Hbody; [|done].
    destruct (visit_stmts_Ok_elem _ _ _ _ Hbody Hin)
      as (enums1 & enums2 & Hs & Hsub).
    destruct (IH _ _ _ _ Hc Hcenum _ _ Hs) as (values & ? & ?).
    exists values. split; [done|].
    apply visit_stmts_keeps in Hvisit.
    eapply lookup_weaken; [|exact Hvisit]. by eapply lookup_weaken.
  - rewrite visit_stmt_If in Hvisit.
    destruct (visit_stmts tbody enums) as [enums0 [[]|e]] eqn:Hbody; [|done].
    destruct (visit_stmts_Ok_elem _ _ _ _ Hvisit Hin)
      as (enums1 & enums2 & Hs & Hsub).
    destruct (IH _ _ _ _ Hc Hcenum _ _ Hs) as (values & ? & ?).
    exists values. split; [done|]. by eapply lookup_weaken.
  - rewrite visit_stmt_ClassDef in Hvisit.
    apply visit_ClassDef_cases in Hvisit as
      [(? & _)|[(_ & ? & _ & _ & ?)|[(_ & ? & ? & _ & _ & _ & _ & ?)
      |(_ & values' & _ & _ & Hvisit)]]]; [congruence|done|done|].
    destruct (visit_stmts_Ok_elem _ _ _ _ Hvisit Hin)
      as (enums1 & enums2 & Hs & Hsub).
    destruct (IH _ _ _ _ Hc Hcenum _ _ Hs) as (values & ? & ?).
    exists values. split; [done|]. by eapply lookup_weaken.
Qed.

Lemma declares_under (outer s : stmt) (name : string)
    (values : gset string) :
  (∀ c, reaches s c → reaches outer c) →
  declares s name values → declares outer name values.
Proof.
  intros Hunder (bases & body & decos & Hreach & Henum & Hnames).
  exists bases, body, decos. split; [by apply Hunder|done].
Qed.

Lemma visit_stmts_origin (ss : list stmt) :
  Forall (λ s, ∀ enums enums' r, visit_stmt s enums = (enums', r) →
               ∀ k v, enums' !! k = Some v →
                      enums !! k = Some v ∨ declares s k v) ss →
  ∀ enums enums' r, visit_stmts ss enums = (enums', r) →
  ∀ k v, enums' !! k = Some v →
         enums !! k = Some v ∨ ∃ s, s ∈ ss ∧ declares s k v.
Proof.
  induction 1 as [|s ss Hs _ IH]; intros enums enums' r Hvisit k v Hk.
  - injection Hvisit as <- <-. by left.
  - rewrite visit_stmts_cons in Hvisit.
    destruct (visit_stmt s enums) as [enums1 r1] eqn:Hvs.
    assert (enums1 !! k = Some v →
            enums !! k = Some v ∨ ∃ s', s' ∈ s :: ss ∧ declares s' k v)
      as Hhead.
    { intros Hk1. destruct (Hs _ _ _ Hvs k v Hk1) as [?|?]; [by left|].
      right. exists s. split; [apply elem_of_cons; by left|done]. }
    destruct r1 as [[]|e].
    + destruct (IH _ _ _ Hvisit k v Hk) as [Hk1|(s' & Hin & Hd)].
      * by apply Hhead.
      * right. exists s'. split; [apply elem_of_cons; by right|done].
    + injection Hvisit as <- <-. by apply Hhead.
Qed.

(** Every entry of the registry after a visit was there before, or is
    the declaration of a class the scanner reaches on that visit. *)
Lemma visit_stmt_origin (s : stmt) :
  ∀ enums enums' r, visit_stmt s enums = (enums', r) →
  ∀ k v, enums' !! k = Some v → enums !! k = Some v ∨ declares s k v.
Proof.
  induction s as
    [name body decos IH|name bases body decos IH| | | |test body orelse IHb IHo
    | |] using stmt_rect'; intros enums enums' r Hvisit k v Hk;
    try (injection Hvisit as <- <-; by left).
  - rewrite visit_stmt_FunctionDef in Hvisit.
    destruct (visit_stmts_origin _ IH _ _ _ Hvisit k v Hk)
      as [?|(s & Hin & Hd)]; [by left|right].
    apply (declares_under _ s); [|done].
    intros c. by apply reaches_FunctionDef.
  - rewrite visit_stmt_ClassDef in Hvisit.
    apply visit_ClassDef_cases in Hvisit as
      [(_ & -> & _)|[(_ & ? & _ & -> & _)|[(_ & ? & ? & _ & _ & _ & -> & _)
      |(Henum & values & Hnames & _ & Hvisit)]]]; try by left.
    destruct (visit_stmts_origin _ IH _ _ _ Hvisit k v Hk)
      as [Hlook|(s & Hin & Hd)].
    + destruct (decide (name = k)) as [->|Hne].
      * rewrite lookup_insert_eq in Hlook. injection Hlook as ->.
        right. exists bases, body, decos. split; [apply reaches_here|done].
      * rewrite lookup_insert_ne in Hlook by done. by left.
    + right. apply (declares_under _ s); [|done].
      intros c. by apply reaches_enum_class.
  - rewrite visit_stmt_If in Hvisit.
    destruct (visit_stmts body enums) as [enums1 [[]|e]] eqn:Hbody.
    + destruct (visit_stmts_origin _ IHo _ _ _ Hvisit k v Hk)
        as [Hk1|(s & Hin & Hd)].
      * destruct (visit_stmts_origin _ IHb _ _ _ Hbody k v Hk1)
          as [?|(s & Hin & Hd)]; [by left|right].
        apply (declares_under _ s); [|done].
        intros c. by apply reaches_If_body.
      * right. apply (declares_under _ s); [|done].
        intros c. by apply reaches_If_orelse.
    + injection Hvisit as <- <-.
      destruct (visit_stmts_origin _ IHb _ _ _ Hbody k v Hk)
        as [?|(s & Hin & Hd)]; [by left|right].
      apply (declares_under _ s); [|done].
      intros c. by apply reaches_If_body.
Qed.

Lemma visit_module_origin (body : list stmt)
    (enums enums' : gmap string (gset string)) (r : result unit) :
  visit_module (ModuleDef body) enums = (enums', r) →
  ∀ k v, enums' !! k = Some v →
         enums !! k = Some v ∨ ∃ s, s ∈ body ∧ declares s k v.
Proof.
  apply visit_stmts_origin, Forall_forall.
  intros s _. apply visit_stmt_origin.
Qed.
End Facts.
End CollectorFacts.

(** C6.  A class whose name is already a key of the registry.  When the
    member set just computed is the registered one, [visit_ClassDef]
    raises nothing of its own and writes the same set back: the registry
    it hands to the walk of the class body is the registry it found.  When
    the sets differ it raises [DuplicateEnumClassError] with the class
    name and leaves the registry as it found it.  Either way the entry of
    that class holds the earlier member set when the visit ends. *)
Theorem visit_ClassDef_redeclaration (name : string) (bases : list expr)
    (body : list stmt) (decorator_list : list expr)
    (enums : gmap string (gset string)) (registered values : gset string) :
  let node := ClassDef name bases body decorator_list in
  is_enum_class (NStmt node) = true →
  assignment_names node = Ok values →
  enums !! name = Some registered →
  (registered = values →
     <[name := values]> enums = enums ∧
     EnumCollectorVisitor.visit_stmt node enums =
       EnumCollectorVisitor.visit_stmts body enums) ∧
  (registered ≠ values →
     EnumCollectorVisitor.visit_stmt node enums =
       (enums, Raise (DuplicateEnumClassError name))) ∧
  (∀ enums' r, EnumCollectorVisitor.visit_stmt node enums = (enums', r) →
     enums' !! name = Some registered).
Proof.
  intros node Henum Hnames Hlook.
  assert (∀ g, EnumCollectorVisitor.visit_ClassDef g node name enums =
               if bool_decide (registered ≠ values)
               then (enums, Raise (DuplicateEnumClassError name))
               else g (<[name := values]> enums)) as Hstep.
  { intros g. unfold EnumCollectorVisitor.visit_ClassDef.
    by rewrite Henum, Hnames, Hlook. }
  split; [|split].
  - intros ->. split; [by apply insert_id|].
    subst node. rewrite CollectorFacts.visit_stmt_ClassDef, Hstep.
    rewrite bool_decide_eq_false_2 by (intros Hne; by apply Hne).
    by rewrite insert_id.
  - intros Hne. subst node.
    rewrite CollectorFacts.visit_stmt_ClassDef, Hstep.
    by rewrite bool_decide_eq_true_2.
  - intros enums' r Hvisit.
    apply CollectorFacts.visit_stmt_keeps_entries in Hvisit.
    by eapply lookup_weaken.
Qed.

(** C9.  The scanner does not walk the body of a class that is not an
    enumeration class: visiting such a class leaves the registry as it is
    and raises nothing, whatever the body holds.  An enumeration class
    that stands at the top level of a module, or under a top-level
    statement on a path through function bodies, [if] branches and bodies
    of enumeration classes, is in the registry, with its members, when the
    walk of the module ends without an exception. *)
Theorem scanner_descends_into_enum_classes_only :
  (∀ name bases body decorator_list enums,
     is_enum_class (NStmt (ClassDef name bases body decorator_list)) = false →
     EnumCollectorVisitor.visit_stmt
       (ClassDef name bases body decorator_list) enums = (enums, Ok ())) ∧
  (∀ top s name bases body decorator_list enums enums',
     let c := ClassDef name bases body decorator_list in
     s ∈ top → reaches s c → is_enum_class (NStmt c) = true →
     EnumCollectorVisitor.visit_module (ModuleDef top) enums =
       (enums', Ok ()) →
     ∃ values, assignment_names c = Ok values ∧ enums' !! name = Some values).
Proof.
  split.
  - intros name bases body decos enums Henum.
    rewrite CollectorFacts.visit_stmt_ClassDef.
    unfold EnumCollectorVisitor.visit_ClassDef. by rewrite Henum.
  - intros top s name bases body decos enums enums' c Hin Hreach Henum Hvisit.
    destruct (CollectorFacts.visit_stmts_Ok_elem _ _ _ _ Hvisit Hin)
      as (enums1 & enums2 & Hs & Hsub).
    destruct (CollectorFacts.visit_stmt_collects s c Hreach _ _ _ _ eq_refl
                Henum _ _ Hs) as (values & ? & ?).
    exists values. split; [done|]. by eapply lookup_weaken.
Qed.

(** ** What a scan has registered when it ends *)

Module RegistersFacts.
Import EnumCollectorVisitor.

Section Facts.
Lemma registers_list_nil (enums : gmap string (gset string)) (k : string)
    (v : gset string) :
  ¬ registers_list [] enums k v.
Proof. intros H. inversion H. Qed.

Lemma registers_list_cons (s : stmt) (ss : list stmt)
    (enums : gmap string (gset string)) (k : string) (v : gset string) :
  registers_list (s :: ss) enums k v ↔
  registers s enums k v ∨
  ∃ enums1, visit_stmt s enums = (enums1, Ok ()) ∧ registers_list ss enums1 k v.
Proof.
  split.
  - intros H. inversion H as [? ? ? ? ? Hs|? ? ? enums1 ? ? Hvisit Hss]; subst.
    + by left.
    + right. by exists enums1.
  - intros [Hs|(enums1 & Hvisit & Hss)].
    + by apply registers_head.
    + by apply (registers_tail _ _ _ enums1).
Qed.

Lemma visit_stmts_registers (ss : list stmt) :
  Forall (λ s, ∀ enums enums' r, visit_stmt s enums = (enums', r) →
               ∀ k v, enums' !! k = Some v ↔
                      enums !! k = Some v ∨ registers s enums k v) ss →
  ∀ enums enums' r, visit_stmts ss enums = (enums', r) →
  ∀ k v, enums' !! k = Some v ↔
         enums !! k = Some v ∨ registers_list ss enums k v.
Proof.
  induction 1 as [|s ss Hs _ IH]; intros enums enums' r Hvisit k v.
  - injection Hvisit as <- <-. split; [by left|].
    intros [?|?%registers_list_nil]; done.
  - rewrite CollectorFacts.visit_stmts_cons in Hvisit.
    rewrite registers_list_cons.
    destruct (visit_stmt s enums) as [enums1 r1] eqn:Hvs.
    specialize (Hs _ _ _ Hvs k v).
    destruct r1 as [[]|e].
    + rewrite (IH _ _ _ Hvisit k v), Hs. split.
      * intros [[?|?]|?]; [by left|right; by left|].
        right. right. by exists enums1.
      * intros [?|[?|(enums1' & [= <-] & ?)]];
          [left; by left|left; by right|by right].
    + injection Hvisit as <- <-. rewrite Hs. split.
      * intros [?|?]; [by left|right; by left].
      * intros [?|[?|(enums1' & ? & _)]]; [by left|by right|done].
Qed.

(** The registry a scan leaves holds what it found and what it registered,
    and nothing else, however the scan ended. *)
Lemma visit_stmt_registers (s : stmt) :
  ∀ enums enums' r, visit_stmt s enums = (enums', r) →
  ∀ k v, enums' !! k = Some v ↔ enums !! k = Some v ∨ registers s enums k v.
Proof.
  induction s as
    [name body decos IH|name bases body decos IH|value|targets value
    |target annotation value|test body orelse IHb IHo|value|]
    using stmt_rect'; intros enums enums' r Hvisit k v;
    try (injection Hvisit as <- <-; split; [by left|];
         intros [?|Hr]; [done|inversion Hr]).
  - rewrite CollectorFacts.visit_stmt_FunctionDef in Hvisit.
    rewrite (visit_stmts_registers _ IH _ _ _ Hvisit k v). split.
    + intros [?|?]; [by left|right; by apply registers_FunctionDef].
    + intros [?|Hr]; [by left|right]. by inversion Hr.
  - rewrite CollectorFacts.visit_stmt_ClassDef in Hvisit.
    apply CollectorFacts.visit_ClassDef_cases in Hvisit as
      [(Henum & -> & _)|[(_ & e & Hnames & -> & _)
      |[(_ & values & registered & Hnames & Hlook & Hne & -> & _)
      |(Henum & values & Hnames & Hfree & Hvisit)]]].
    + split; [by left|]. intros [?|Hr]; [done|]. inversion Hr; congruence.
    + split; [by left|]. intros [?|Hr]; [done|]. inversion Hr; congruence.
    + split; [by left|]. intros [?|Hr]; [done|].
      inversion Hr as [? ? ? ? ? values' _ Hnames' Hfree'
                      |? ? ? ? ? values' ? ? _ Hnames' Hfree' _| | |]; subst;
        rewrite Hnames in Hnames'; injection Hnames' as <-;
        destruct Hfree' as [Hnone|Hsome]; congruence.
    + rewrite (visit_stmts_registers _ IH _ _ _ Hvisit k v). split.
      * intros [Hlook|Hbody].
        -- destruct (decide (name = k)) as [<-|Hne].
           ++ rewrite lookup_insert_eq in Hlook. injection Hlook as <-.
              right. by apply registers_ClassDef.
           ++ rewrite lookup_insert_ne in Hlook by done. by left.
        -- right. by apply (registers_ClassDef_body _ _ _ _ _ values).
      * intros [Hlook|Hr].
        -- left. destruct (decide (name = k)) as [<-|Hne].
           ++ rewrite lookup_insert_eq.
              destruct Hfree as [Hnone|Hsome]; congruence.
           ++ by rewrite lookup_insert_ne.
        -- inversion Hr as [? ? ? ? ? values' _ Hnames' _
                           |? ? ? ? ? values' ? ? _ Hnames' _ Hbody| | |]; subst;
             rewrite Hnames in Hnames'; injection Hnames' as <-.
           ++ left. apply lookup_insert_eq.
           ++ by right.
  - rewrite CollectorFacts.visit_stmt_If in Hvisit.
    destruct (visit_stmts body enums) as [enums1 r1] eqn:Hbody.
    pose proof (visit_stmts_registers _ IHb _ _ _ Hbody k v) as Hb.
    destruct r1 as [[]|e].
    + rewrite (visit_stmts_registers _ IHo _ _ _ Hvisit k v), Hb. split.
      * intros [[?|?]|?]; [by left|right; by apply registers_If_body|].
        right. by apply (registers_If_orelse _ _ _ _ enums1).
      * intros [?|Hr]; [left; by left|].
        inversion Hr as [| | |? ? ? ? ? ? Hrb|? ? ? ? enums1' ? ? Hbody' Hro];
          subst.
        -- left. by right.
        -- rewrite Hbody in Hbody'. injection Hbody' as <-. by right.
    + injection Hvisit as <- <-. rewrite Hb. split.
      * intros [?|?]; [by left|right; by apply registers_If_body].
      * intros [?|Hr]; [by left|].
        inversion Hr as [| | |? ? ? ? ? ? Hrb|? ? ? ? enums1' ? ? Hbody' Hro];
          subst; [by right|].
        rewrite Hbody in Hbody'. discriminate Hbody'.
Qed.

Lemma visit_module_registers (body : list stmt)
    (enums enums' : gmap string (gset string)) (r : result unit)
    (k : string) (v : gset string) :
  visit_module (ModuleDef body) enums = (enums', r) →
  enums' !! k = Some v ↔ enums !! k = Some v ∨ registers_list body enums k v.
Proof.
  intros Hvisit. revert k v.
  apply (visit_stmts_registers body) with (r := r); [|done].
  apply Forall_forall. intros s _. apply visit_stmt_registers.
Qed.

(** A scan that raises does so in one statement of the list, after the
    statements before it were walked to their end. *)
Lemma visit_stmts_raise_split (ss : list stmt)
    (enums enums' : gmap string (gset string)) (e : exn) :
  visit_stmts ss enums = (enums', Raise e) →
  ∃ pre s rest enums1,
    ss = pre ++ s :: rest ∧
    visit_stmts pre enums = (enums1, Ok ()) ∧
    visit_stmt s enums1 = (enums', Raise e).
Proof.
  revert enums. induction ss as [|s ss IH]; intros enums; [done|].
  rewrite CollectorFacts.visit_stmts_cons.
  destruct (visit_stmt s enums) as [enums1 [[]|e1]] eqn:Hvs.
  - intros (pre & s' & rest & enums2 & -> & Hpre & Hs')%IH.
    exists (s :: pre), s', rest, enums2. split; [done|]. split; [|done].
    by rewrite CollectorFacts.visit_stmts_cons, Hvs.
  - intros [= <- <-]. by exists [], s, ss, enums.
Qed.
End Facts.
End RegistersFacts.

(** ** Collecting over a set of files *)

Section CollectEnumsFacts.
Variable read_file : string → string.
Variable ast_parse : string → option module.

(** A file that does not parse is passed over with a warning. *)
Lemma collect_enums_loop_syntax_error (fn : string) (filenames : list string)
    (enums : gmap string (gset string)) (log : list logrecord) :
  ast_parse (read_file fn) = None →
  collect_enums_loop read_file ast_parse (fn :: filenames) enums log =
  collect_enums_loop read_file ast_parse filenames enums
    (log ++ [LogRecord WARNING "Ignoring syntax error in file: %s"
               [ArgStr fn]]).
Proof. intros Hparse. simpl. by rewrite Hparse. Qed.

(** So is every file before the first that parses. *)
Lemma collect_enums_loop_skips (bad filenames : list string)
    (enums : gmap string (gset string)) (log : list logrecord) :
  Forall (λ fn, ast_parse (read_file fn) = None) bad →
  collect_enums_loop read_file ast_parse (bad ++ filenames) enums log =
  collect_enums_loop read_file ast_parse filenames enums
    (log ++ map (λ fn, LogRecord WARNING "Ignoring syntax error in file: %s"
                         [ArgStr fn]) bad).
Proof.
  intros Hbad. revert log.
  induction Hbad as [|fn bad Hfn _ IH]; intros log.
  - simpl. by rewrite app_nil_r.
  - rewrite <- app_comm_cons, collect_enums_loop_syntax_error by done.
    rewrite IH. by rewrite <- app_assoc.
Qed.
End CollectEnumsFacts.

(** C4, as the code has it.  When the scan of a file ends with a
    duplicate-item or duplicate-class error, the registry is not put back
    to what it was before the file.  It holds exactly the entries it had
    before, unchanged, and the classes the scan registered before the
    error was raised.  In particular the scan failed in one top-level
    statement, after the statements before it were walked to their end,
    and every enumeration class the scanner reached in those is
    registered, with its members.  Whatever was added is a class of that
    file.  The loop logs one warning and goes on to the remaining files
    with the registry as the scan left it. *)
Theorem collect_enums_duplicate_keeps_partial (read_file : string → string)
    (ast_parse : string → option module) (fn : string)
    (filenames : list string) (body : list stmt)
    (enums enums' : gmap string (gset string)) (log : list logrecord)
    (e : exn) :
  ast_parse (read_file fn) = Some (ModuleDef body) →
  EnumCollectorVisitor.visit_module (ModuleDef body) enums = (enums', Raise e) →
  (∃ name, e = DuplicateEnumClassError name ∨ e = DuplicateEnumItemError name) →
  enums ⊆ enums' ∧
  (∀ k v, enums' !! k = Some v ↔
          enums !! k = Some v ∨ registers_list body enums k v) ∧
  (∃ pre s rest enums1,
     body = pre ++ s :: rest ∧
     EnumCollectorVisitor.visit_stmts pre enums = (enums1, Ok ()) ∧
     EnumCollectorVisitor.visit_stmt s enums1 = (enums', Raise e) ∧
     enums1 ⊆ enums' ∧
     ∀ s0 name bases cbody decorator_list,
       s0 ∈ pre →
       reaches s0 (ClassDef name bases cbody decorator_list) →
       is_enum_class (NStmt (ClassDef name bases cbody decorator_list)) = true →
       ∃ values,
         assignment_names (ClassDef name bases cbody decorator_list) =
           Ok values ∧
         enums' !! name = Some values) ∧
  (∀ k v, enums' !! k = Some v →
          enums !! k = Some v ∨ ∃ s, s ∈ body ∧ declares s k v) ∧
  ∃ warning,
    levelname warning = WARNING ∧ args warning = [ArgRepr e] ∧
    collect_enums_loop read_file ast_parse (fn :: filenames) enums log =
    collect_enums_loop read_file ast_parse filenames enums' (log ++ [warning]).
Proof.
  intros Hparse Hvisit [name He]. split; [|split; [|split; [|split]]].
  - by apply CollectorFacts.visit_module_keeps_entries in Hvisit.
  - intros k v. by apply (RegistersFacts.visit_module_registers body _ _ (Raise e)).
  - destruct (RegistersFacts.visit_stmts_raise_split _ _ _ _ Hvisit)
      as (pre & s & rest & enums1 & Hbody & Hpre & Hs).
    exists pre, s, rest, enums1. split; [done|]. split; [done|].
    split; [done|].
    assert (enums1 ⊆ enums') as Hsub
      by (by apply CollectorFacts.visit_stmt_keeps_entries in Hs).
    split; [done|].
    intros s0 cname bases cbody decos Hin Hreach Henum.
    destruct (CollectorFacts.visit_stmts_Ok_elem _ _ _ _ Hpre Hin)
      as (enums2 & enums3 & Hs0 & Hsub3).
    destruct (CollectorFacts.visit_stmt_collects s0 _ Hreach _ _ _ _ eq_refl
                Henum _ _ Hs0) as (values & Hnames & Hlook).
    exists values. split; [done|].
    eapply lookup_weaken; [|exact Hsub]. by eapply lookup_weaken.
  - by apply (CollectorFacts.visit_module_origin body enums enums' (Raise e)).
  - simpl. rewrite Hparse, Hvisit. destruct He as [->| ->].
    + by eexists (LogRecord WARNING _ _).
    + by eexists (LogRecord WARNING _ _).
Qed.

(** ** Checking over a set of files *)

Section CheckFilesFacts.
Variable oklist : gset string.
Variable linesep : string.
Variable read_file : string → string.
Variable ast_parse : string → option module.

(** [check_files] has no handler for [SyntaxError]: the first file that
    does not parse ends the loop, and the files after it are not
    checked. *)
Lemma check_files_syntax_error_propagates (fn : string)
    (filenames : list string) (enums : gmap string (gset string))
    (log : list logrecord) :
  ast_parse (read_file fn) = None →
  check_files oklist linesep read_file ast_parse (fn :: filenames) enums log =
  (log ++ [LogRecord INFO "Checking enum values in %d files"
             [ArgInt (Z.of_nat (length (fn :: filenames)))];
           LogRecord DEBUG "Checking file: %s" [ArgStr fn]],
   Raise SyntaxError).
Proof.
  intros Hparse. unfold check_files. cbn [check_files_loop].
  unfold checkfile. cbn [code]. rewrite Hparse.
  by rewrite <- app_assoc.
Qed.
End CheckFilesFacts.

(** C2.  A set of files one of which does not parse.  [collect_enums]
    catches the [SyntaxError], logs a warning and goes on: the registry
    holds the classes of the other files.  [check_files] does not catch
    it: the error leaves [check_files] and [main] at the bad file, and the
    file after it, with its two defects, is never checked. *)
Theorem check_files_syntax_error_aborts :
  collect_enums sample_read_file sample_ast_parse ["bad.py"; "decl.py"] [] =
    ([LogRecord INFO "Collecting enums from %d files" [ArgInt 2];
      LogRecord WARNING "Ignoring syntax error in file: %s" [ArgStr "bad.py"];
      LogRecord DEBUG "Enums: %s" [ArgPformat sample_enums]],
     Ok sample_enums) ∧
  check_files sample_oklist newline sample_read_file sample_ast_parse
    ["bad.py"; "use.py"] sample_enums [] =
    ([LogRecord INFO "Checking enum values in %d files" [ArgInt 2];
      LogRecord DEBUG "Checking file: %s" [ArgStr "bad.py"]],
     Raise SyntaxError) ∧
  (main sample_oklist newline sample_read_file sample_ast_parse
     ["decl.py"; "bad.py"; "use.py"] []).2 = Raise SyntaxError ∧
  (main sample_oklist newline sample_read_file sample_ast_parse
     ["decl.py"; "use.py"] []).2 = Ok 1%nat.
Proof. repeat split; vm_compute; reflexivity. Qed.

(** C3.  An attribute access whose base is a call or a subscript: the
    visit returns before [generic_visit], so nothing under the node is
    visited.  In [w = f(Foo.bogus).x] the access [Foo.bogus], which is
    flagged when visited by itself, goes unseen, and the file is reported
    clean. *)
Theorem visit_Attribute_skips_children_of_other_bases :
  (∀ oklist enums func args l1 attr l badnodes,
     EnumCheckerVisitor.visit_expr oklist enums
       (Attribute (Call func args l1) attr l) badnodes = badnodes) ∧
  (∀ oklist enums value slice l1 attr l badnodes,
     EnumCheckerVisitor.visit_expr oklist enums
       (Attribute (Subscript value slice l1) attr l) badnodes = badnodes) ∧
  EnumCheckerVisitor.visit_expr sample_oklist sample_enums nested_access [] =
    [nested_access] ∧
  EnumCheckerVisitor.visit_module sample_oklist sample_enums nested_tree [] =
    [] ∧
  (check_files sample_oklist newline sample_read_file sample_ast_parse
     ["nested.py"] sample_enums []).2 = Ok 0%nat.
Proof. repeat split; vm_compute; reflexivity. Qed.

(** In [dup.py] the scan registers [A] before it fails in [B]. *)
Example dup_registers_A :
  registers_list
    [ClassDef "A" [Name "Enum" 1] [Assign [Name "x" 2] (Constant (CInt 1) 2)] [];
     ClassDef "B" [Name "Enum" 3]
       [Assign [Name "y" 4] (Constant (CInt 1) 4);
        Assign [Name "y" 5] (Constant (CInt 2) 5)] []] ∅ "A" {[ "x" ]}.
Proof.
  apply registers_head, registers_ClassDef.
  - reflexivity.
  - vm_compute. reflexivity.
  - left. reflexivity.
Qed.

(** C4, as stated, fails.  In [dup.py] the class [A] is registered before
    the repeated item of [B] raises; the exception does not take [A] out
    again, so the registry after the file is not the registry before
    it. *)
Lemma collect_enums_partial_collection_remains :
  EnumCollectorVisitor.visit_module dup_tree ∅ =
    ({[ "A" := {[ "x" ]} ]}, Raise (DuplicateEnumItemError "y")) ∧
  (collect_enums_loop sample_read_file sample_ast_parse ["dup.py"] ∅ []).1.1 =
    {[ "A" := {[ "x" ]} ]} ∧
  ({[ "A" := {[ "x" ]} ]} : gmap string (gset string)) ≠ ∅ ∧
  ¬ (∀ body enums enums' name,
       EnumCollectorVisitor.visit_module (ModuleDef body) enums =
         (enums', Raise (DuplicateEnumItemError name)) →
       enums' = enums).
Proof.
  assert (EnumCollectorVisitor.visit_module dup_tree ∅ =
            ({[ "A" := {[ "x" ]} ]}, Raise (DuplicateEnumItemError "y")))
    as Hvisit by (vm_compute; reflexivity).
  assert (({[ "A" := {[ "x" ]} ]} : gmap string (gset string)) ≠ ∅) as Hne
    by apply map_non_empty_singleton.
  split; [done|]. split; [vm_compute; reflexivity|]. split; [done|].
  intros Hclaim. apply Hne. exact (Hclaim _ _ _ _ Hvisit).
Qed.

(** * The theorems at the sample inputs *)

(** [Foo.c] is a defect and is flagged; [Foo.a] is declared and is not. *)
Lemma visit_Attribute_flags_iff_defect_witness :
  flagged_access sample_oklist sample_enums (Name "Foo" 2) "c" ∧
  Attribute (Name "Foo" 2) "c" 2 ∈
    EnumCheckerVisitor.visit_expr sample_oklist sample_enums
      (Attribute (Name "Foo" 2) "c" 2) [] ∧
  Attribute (Name "Foo" 1) "a" 1 ∉
    EnumCheckerVisitor.visit_expr sample_oklist sample_enums
      (Attribute (Name "Foo" 1) "a" 1) [].
Proof.
  assert (flagged_access sample_oklist sample_enums (Name "Foo" 2) "c") as Hc.
  { exists "Foo", {[ "a"; "b" ]}. split; [reflexivity|]. split; [reflexivity|].
    split; apply (bool_decide_unpack _); vm_compute; exact I. }
  split; [exact Hc|]. split.
  - apply (proj1 (CheckerFacts.visit_Attribute_flags_iff_defect
                    sample_oklist sample_enums (Name "Foo" 2) "c" 2 [])).
    exact Hc.
  - apply (proj2 (proj2 (CheckerFacts.visit_Attribute_flags_iff_defect
                    sample_oklist sample_enums (Name "Foo" 1) "a" 1 []))
             "Foo" eq_refl).
    right. left. exists {[ "a"; "b" ]}. split; [reflexivity|].
    apply (bool_decide_unpack _). vm_compute. exact I.
Defined.

(** The registry keeps [A] from [dup.py], and one warning is logged. *)
Lemma collect_enums_duplicate_keeps_partial_witness :
  sample_ast_parse (sample_read_file "dup.py") = Some dup_tree ∧
  EnumCollectorVisitor.visit_module dup_tree ∅ =
    ({[ "A" := {[ "x" ]} ]}, Raise (DuplicateEnumItemError "y")) ∧
  (∀ k v, ({[ "A" := {[ "x" ]} ]} : gmap string (gset string)) !! k = Some v ↔
          (∅ : gmap string (gset string)) !! k = Some v ∨
          registers_list
            [ClassDef "A" [Name "Enum" 1]
               [Assign [Name "x" 2] (Constant (CInt 1) 2)] [];
             ClassDef "B" [Name "Enum" 3]
               [Assign [Name "y" 4] (Constant (CInt 1) 4);
                Assign [Name "y" 5] (Constant (CInt 2) 5)] []] ∅ k v) ∧
  ∃ warning,
    levelname warning = WARNING ∧
    args warning = [ArgRepr (DuplicateEnumItemError "y")] ∧
    collect_enums_loop sample_read_file sample_ast_parse
      ["dup.py"; "decl.py"] ∅ [] =
    collect_enums_loop sample_read_file sample_ast_parse
      ["decl.py"] {[ "A" := {[ "x" ]} ]} ([] ++ [warning]).
Proof.
  assert (sample_ast_parse (sample_read_file "dup.py") = Some dup_tree)
    as Hparse by reflexivity.
  assert (EnumCollectorVisitor.visit_module dup_tree ∅ =
            ({[ "A" := {[ "x" ]} ]}, Raise (DuplicateEnumItemError "y")))
    as Hvisit by (vm_compute; reflexivity).
  assert (∃ name, DuplicateEnumItemError "y" = DuplicateEnumClassError name ∨
                  DuplicateEnumItemError "y" = DuplicateEnumItemError name)
    as Hdup by (exists "y"; right; reflexivity).
  split; [exact Hparse|]. split; [exact Hvisit|].
  destruct (collect_enums_duplicate_keeps_partial sample_read_file
              sample_ast_parse "dup.py" ["decl.py"] _ ∅ _ [] _ Hparse Hvisit
              Hdup) as (_ & Hexact & _ & _ & Hwarning).
  split; [exact Hexact|exact Hwarning].
Defined.

(** The class of [test_assignment_names] has the members [x], [y], [z]. *)
Lemma assignment_names_members_witness :
  NoDup (identifier_targets
           [Assign [Name "x" 3; Name "y" 3; Attribute (Name "r" 3) "s" 3]
                   (Constant (CStr "xy") 3);
            Assign [Name "z" 4] (Constant (CStr "z") 4);
            FunctionDef "something"
              [Assign [Name "var" 7] (Constant (CInt 1) 7)] []]) ∧
  ∃ values,
    assignment_names test_Foo = Ok values ∧
    values = list_to_set ["x"; "y"; "z"] ∧
    ∀ x, x ∈ values ↔
         ∃ targets value l,
           Assign targets value ∈
             [Assign [Name "x" 3; Name "y" 3; Attribute (Name "r" 3) "s" 3]
                     (Constant (CStr "xy") 3);
              Assign [Name "z" 4] (Constant (CStr "z") 4);
              FunctionDef "something"
                [Assign [Name "var" 7] (Constant (CInt 1) 7)] []] ∧
           Name x l ∈ targets.
Proof.
  assert (NoDup (identifier_targets
           [Assign [Name "x" 3; Name "y" 3; Attribute (Name "r" 3) "s" 3]
                   (Constant (CStr "xy") 3);
            Assign [Name "z" 4] (Constant (CStr "z") 4);
            FunctionDef "something"
              [Assign [Name "var" 7] (Constant (CInt 1) 7)] []])) as Hnd.
  { apply (bool_decide_unpack _). vm_compute. exact I. }
  split; [exact Hnd|].
  exact (assignment_names_members "Foo" [Name "Enum" 2] _ [] Hnd).
Defined.

(** [Foo] declared again: with the same members nothing changes, with
    other members the scan of the file ends with the error. *)
Lemma visit_ClassDef_redeclaration_witness :
  is_enum_class (NStmt decl_Foo) = true ∧
  assignment_names decl_Foo = Ok {[ "a"; "b" ]} ∧
  assignment_names redecl_Foo = Ok {[ "a" ]} ∧
  sample_enums !! "Foo" = Some {[ "a"; "b" ]} ∧
  EnumCollectorVisitor.visit_stmt decl_Foo sample_enums =
    EnumCollectorVisitor.visit_stmts
      [Assign [Name "a" 2] (Constant (CInt 1) 2);
       Assign [Name "b" 3] (Constant (CInt 2) 3)] sample_enums ∧
  EnumCollectorVisitor.visit_stmt redecl_Foo sample_enums =
    (sample_enums, Raise (DuplicateEnumClassError "Foo")).
Proof.
  assert (assignment_names decl_Foo = Ok {[ "a"; "b" ]}) as Hsame
    by (vm_compute; reflexivity).
  assert (assignment_names redecl_Foo = Ok {[ "a" ]}) as Hother
    by (vm_compute; reflexivity).
  assert (sample_enums !! "Foo" = Some {[ "a"; "b" ]}) as Hlook
    by reflexivity.
  split; [reflexivity|]. split; [exact Hsame|]. split; [exact Hother|].
  split; [exact Hlook|]. split.
  - exact (proj2 (proj1 (visit_ClassDef_redeclaration "Foo" [Name "Enum" 1] _ []
                           sample_enums _ _ eq_refl Hsame Hlook) eq_refl)).
  - apply (proj1 (proj2 (visit_ClassDef_redeclaration "Foo" [Name "Enum" 1] _ []
                           sample_enums _ _ eq_refl Hother Hlook))).
    intros Heq. apply (f_equal (λ X : gset string, bool_decide ("b" ∈ X))) in Heq.
    vm_compute in Heq. discriminate Heq.
Defined.

(** The class of [test_is_enum_class] is an enumeration class; without
    the base [Enum] it is not. *)
Lemma is_enum_class_iff_witness :
  is_enum_class (NStmt test_Foo_bases) = true ∧
  is_enum_class
    (NStmt (ClassDef "Foo" [Attribute (Name "enum" 2) "Enum" 2] [] [])) = false.
Proof.
  split.
  - apply (proj1 (is_enum_class_iff (NStmt test_Foo_bases))).
    exists "Foo", [Name "Enum" 2; Name "SomethingElse" 2],
           [Assign [Name "x" 3] (Constant (CStr "x") 3)], [], 2.
    split; [reflexivity|]. apply elem_of_cons. left. reflexivity.
  - apply (proj2 (proj2 (is_enum_class_iff (NStmt test_Foo_bases)))).
Defined.

(** [use.py]: two flagged nodes on one line, reported with that line. *)
Lemma checkfile_summary_results_witness :
  checkfile sample_oklist sample_read_file sample_ast_parse
    (EnumChecker_init sample_enums) "use.py" = (sample_checked, Ok ()) ∧
  str_split (sample_read_file "use.py") newline =
    Ok ["x = Foo.a"; "y = Foo.c + Foo.d"; "z = Foo.name"; ""] ∧
  ∃ tree flagged,
    sample_ast_parse (sample_read_file "use.py") = Some tree ∧
    flagged = EnumCheckerVisitor.visit_module sample_oklist
                (visitor_enums (EnumChecker_init sample_enums)) tree [] ∧
    visitor_badnodes sample_checked = flagged ∧
    (∃ lines : list Z,
       NoDup lines ∧
       (∀ k, k ∈ lines ↔ ∃ n, n ∈ flagged ∧ lineno n = k) ∧
       summary sample_checked = (length flagged, length lines)) ∧
    String.concat newline
      ["x = Foo.a"; "y = Foo.c + Foo.d"; "z = Foo.name"; ""] =
      sample_read_file "use.py" ∧
    (∃ pairs,
       results newline sample_checked = (pairs, None) ∧
       pairs.*1 = lineno <$> flagged ∧
       Forall (λ p, ["x = Foo.a"; "y = Foo.c + Foo.d"; "z = Foo.name"; ""]
                      !! Z.to_nat (p.1 - 1) = Some p.2) pairs) ∧
    (flagged = [] → results newline sample_checked = ([], None)).
Proof.
  assert (checkfile sample_oklist sample_read_file sample_ast_parse
            (EnumChecker_init sample_enums) "use.py" = (sample_checked, Ok ()))
    as Hcheck by reflexivity.
  assert (str_split (sample_read_file "use.py") newline =
            Ok ["x = Foo.a"; "y = Foo.c + Foo.d"; "z = Foo.name"; ""])
    as Hsplit by reflexivity.
  split; [exact Hcheck|]. split; [exact Hsplit|].
  apply (checkfile_summary_results sample_oklist newline sample_read_file
           sample_ast_parse (EnumChecker_init sample_enums) sample_checked
           "use.py" _ Hcheck Hsplit).
  vm_compute. repeat constructor; discriminate.
Defined.

(** [places.py]: the class inside a plain class is passed over, the one
    inside an enumeration class is collected. *)
Lemma scanner_descends_into_enum_classes_only_witness :
  EnumCollectorVisitor.visit_stmt
    (ClassDef "Outer" [Name "object" 1] [Hidden] []) ∅ = (∅, Ok ()) ∧
  EnumCollectorVisitor.visit_module places_tree ∅ =
    ({[ "InFunction" := {[ "i" ]}; "Top" := {[ "t" ]}; "Inner" := {[ "n" ]} ]},
     Ok ()) ∧
  ∃ values,
    assignment_names Inner = Ok values ∧
    ({[ "InFunction" := {[ "i" ]}; "Top" := {[ "t" ]}; "Inner" := {[ "n" ]} ]}
       : gmap string (gset string)) !! "Inner" = Some values.
Proof.
  assert (EnumCollectorVisitor.visit_module places_tree ∅ =
    ({[ "InFunction" := {[ "i" ]}; "Top" := {[ "t" ]}; "Inner" := {[ "n" ]} ]},
     Ok ())) as Hvisit by (vm_compute; reflexivity).
  split; [|split; [exact Hvisit|]].
  - apply (proj1 scanner_descends_into_enum_classes_only). reflexivity.
  - apply (proj2 scanner_descends_into_enum_classes_only
             [ClassDef "Outer" [Name "object" 1] [Hidden] [];
              FunctionDef "f" [InFunction] []; Top]
             Top "Inner" [Name "Enum" 9]
             [Assign [Name "n" 10] (Constant (CInt 1) 10)] [] ∅).
    + apply elem_of_cons. right. apply elem_of_cons. right.
      apply elem_of_cons. left. reflexivity.
    + apply (reaches_enum_class "Top" [Name "Enum" 7]
               [Assign [Name "t" 8] (Constant (CInt 1) 8); Inner] [] Inner).
      * reflexivity.
      * apply elem_of_cons. right. apply elem_of_cons. left. reflexivity.
      * apply reaches_here.
    + reflexivity.
    + exact Hvisit.
Defined.

(** [use.py]: both flagged nodes are on line 2 of 4 pieces. *)
Lemma results_index_in_bounds_witness :
  str_split (code sample_checked) newline =
    Ok ["x = Foo.a"; "y = Foo.c + Foo.d"; "z = Foo.name"; ""] ∧
  Forall (λ n, 1 ≤ lineno n ≤ 4) (visitor_badnodes sample_checked) ∧
  (results newline sample_checked).2 = None ∧
  length (results newline sample_checked).1 =
    length (visitor_badnodes sample_checked).
Proof.
  assert (str_split (code sample_checked) newline =
            Ok ["x = Foo.a"; "y = Foo.c + Foo.d"; "z = Foo.name"; ""])
    as Hsplit by reflexivity.
  assert (Forall (λ n, 1 ≤ lineno n ≤ 4) (visitor_badnodes sample_checked))
    as Hrange by (vm_compute; repeat constructor; discriminate).
  split; [exact Hsplit|]. split; [exact Hrange|].
  exact (proj2 (results_index_in_bounds newline sample_checked _ Hsplit Hrange)).
Defined.

(** * Further properties of the code *)

(** ** The usage scanner over a whole tree *)

Module ScannerFacts.
Import EnumCheckerVisitor.

Section Facts.
Variable oklist : gset string.
Variable enums : gmap string (gset string).

Abbreviation visit_expr := (visit_expr oklist enums).
Abbreviation visit_exprs := (visit_exprs oklist enums).
Abbreviation visit_stmt := (visit_stmt oklist enums).
Abbreviation visit_stmts := (visit_stmts oklist enums).
Abbreviation visit_module := (visit_module oklist enums).

Lemma visit_exprs_app (es1 es2 : list expr) (b : list expr) :
  visit_exprs (es1 ++ es2) b = visit_exprs es2 (visit_exprs es1 b).
Proof. apply fold_left_app. Qed.

Lemma visit_exprs_elem (es : list expr) (n : expr) :
  n ∈ visit_exprs es [] ↔ ∃ e, e ∈ es ∧ n ∈ visit_expr e [].
Proof.
  induction es as [|e es IH].
  - split; [by intros ?%elem_of_nil|by intros (? & ?%elem_of_nil & _)].
  - rewrite CheckerFacts.visit_exprs_cons, CheckerFacts.visit_exprs_appends.
    rewrite elem_of_app, IH. split.
    + intros [Hn|(a & Ha & Hn)].
      * exists e. split; [apply elem_of_cons; by left|done].
      * exists a. split; [apply elem_of_cons; by right|done].
    + intros (a & [->|Ha]%elem_of_cons & Hn); [by left|right; by exists a].
Qed.

(** One visit of an attribute access, spelt out. *)
Lemma visit_expr_Attribute (value : expr) (attr : string) (l : Z) :
  visit_expr (Attribute value attr l) [] =
  match candidate value with
  | None => []
  | Some _ =>
      (if CheckerFacts.flagged_access_dec oklist enums value attr
       then [Attribute value attr l] else []) ++ visit_expr value []
  end.
Proof.
  cbn [EnumCheckerVisitor.visit_expr]. unfold visit_Attribute.
  fold (candidate value).
  destruct (candidate value) as [cls|] eqn:Hc; [|done].
  destruct (enums !! cls) as [members|] eqn:Hm.
  - pose proof (CheckerFacts.flagged_access_test oklist enums value attr cls
                  members Hc Hm) as Ht.
    destruct (CheckerFacts.flagged_access_dec oklist enums value attr)
      as [Hf|Hf].
    + apply Ht in Hf. rewrite Hf.
      by rewrite CheckerFacts.visit_expr_appends.
    + destruct (_ && _); [by destruct Hf; apply Ht|done].
  - destruct (CheckerFacts.flagged_access_dec oklist enums value attr)
      as [(cls' & members' & Hc' & Hm' & _)|Hf]; [|done].
    rewrite Hc in Hc'. injection Hc' as <-. congruence.
Qed.

Lemma visit_expr_sound (e n : expr) :
  n ∈ visit_expr e [] →
  ∃ value attr l,
    n = Attribute value attr l ∧ visits e n ∧
    flagged_access oklist enums value attr.
Proof.
  revert n. induction e as
    [id l|value attr l IH|func args l IHf IHa|value slice l IHv IHs
    |c l|elts l IH|x y l IHx IHy] using expr_rect'; intros n.
  - by intros ?%elem_of_nil.
  - rewrite visit_expr_Attribute.
    destruct (candidate value) as [cls|] eqn:Hc; [|by intros ?%elem_of_nil].
    intros [Hn|Hn]%elem_of_app.
    + destruct (CheckerFacts.flagged_access_dec oklist enums value attr);
        [|by apply elem_of_nil in Hn].
      apply list_elem_of_singleton in Hn as ->.
      exists value, attr, l. split; [done|]. split; [apply visits_here|done].
    + destruct (IH n Hn) as (v & a & l' & -> & Hv & Hf).
      exists v, a, l'. split; [done|]. split; [|done].
      apply visits_Attribute; [by rewrite Hc|done].
  - cbn [EnumCheckerVisitor.visit_expr].
    fold (EnumCheckerVisitor.visit_exprs oklist enums args (visit_expr func [])).
    rewrite CheckerFacts.visit_exprs_appends.
    intros [Hn|(a & Ha & Hn)%visit_exprs_elem]%elem_of_app.
    + destruct (IHf n Hn) as (v & a & l' & -> & Hv & Hf).
      exists v, a, l'. split; [done|]. split; [by apply visits_Call_func|done].
    + rewrite Forall_forall in IHa.
      destruct (IHa a Ha n Hn) as (v & at' & l' & -> & Hv & Hf).
      exists v, at', l'. split; [done|].
      split; [by apply (visits_Call_args _ _ _ a)|done].
  - cbn [EnumCheckerVisitor.visit_expr]. rewrite CheckerFacts.visit_expr_appends.
    intros [Hn|Hn]%elem_of_app.
    + destruct (IHv n Hn) as (v & a & l' & -> & Hv & Hf).
      exists v, a, l'. split; [done|].
      split; [by apply visits_Subscript_value|done].
    + destruct (IHs n Hn) as (v & a & l' & -> & Hv & Hf).
      exists v, a, l'. split; [done|].
      split; [by apply visits_Subscript_slice|done].
  - by intros ?%elem_of_nil.
  - cbn [EnumCheckerVisitor.visit_expr].
    fold (EnumCheckerVisitor.visit_exprs oklist enums elts []).
    intros (a & Ha & Hn)%visit_exprs_elem.
    rewrite Forall_forall in IH.
    destruct (IH a Ha n Hn) as (v & at' & l' & -> & Hv & Hf).
    exists v, at', l'. split; [done|].
    split; [by apply (visits_Tuple _ _ a)|done].
  - cbn [EnumCheckerVisitor.visit_expr]. rewrite CheckerFacts.visit_expr_appends.
    intros [Hn|Hn]%elem_of_app.
    + destruct (IHx n Hn) as (v & a & l' & -> & Hv & Hf).
      exists v, a, l'. split; [done|].
      split; [by apply visits_BinOp_left|done].
    + destruct (IHy n Hn) as (v & a & l' & -> & Hv & Hf).
      exists v, a, l'. split; [done|].
      split; [by apply visits_BinOp_right|done].
Qed.

Lemma visit_expr_complete (e n : expr) :
  visits e n →
  ∀ value attr l, n = Attribute value attr l →
  flagged_access oklist enums value attr →
  n ∈ visit_expr e [].
Proof.
  induction 1 as
    [e|value attr l n Hc _ IH|func args l n _ IH|func args l a n Ha _ IH
    |value slice l n _ IH|value slice l n _ IH|elts l a n Ha _ IH
    |x y l n _ IH|x y l n _ IH]; intros v at' l' Hn Hf.
  - subst e. rewrite visit_expr_Attribute.
    destruct (candidate v) as [cls|] eqn:Hc.
    + destruct (CheckerFacts.flagged_access_dec oklist enums v at'); [|done].
      apply elem_of_app. left. by apply list_elem_of_singleton.
    + destruct Hf as (cls & members & Hc' & _). congruence.
  - rewrite visit_expr_Attribute.
    destruct (candidate value); [|done].
    apply elem_of_app. right. by apply (IH v at' l').
  - cbn [EnumCheckerVisitor.visit_expr].
    fold (EnumCheckerVisitor.visit_exprs oklist enums args (visit_expr func [])).
    rewrite CheckerFacts.visit_exprs_appends.
    apply elem_of_app. left. by apply (IH v at' l').
  - cbn [EnumCheckerVisitor.visit_expr].
    fold (EnumCheckerVisitor.visit_exprs oklist enums args (visit_expr func [])).
    rewrite CheckerFacts.visit_exprs_appends.
    apply elem_of_app. right. apply visit_exprs_elem.
    exists a. split; [done|]. by apply (IH v at' l').
  - cbn [EnumCheckerVisitor.visit_expr]. rewrite CheckerFacts.visit_expr_appends.
    apply elem_of_app. left. by apply (IH v at' l').
  - cbn [EnumCheckerVisitor.visit_expr]. rewrite CheckerFacts.visit_expr_appends.
    apply elem_of_app. right. by apply (IH v at' l').
  - cbn [EnumCheckerVisitor.visit_expr].
    fold (EnumCheckerVisitor.visit_exprs oklist enums elts []).
    apply visit_exprs_elem. exists a. split; [done|]. by apply (IH v at' l').
  - cbn [EnumCheckerVisitor.visit_expr]. rewrite CheckerFacts.visit_expr_appends.
    apply elem_of_app. left. by apply (IH v at' l').
  - cbn [EnumCheckerVisitor.visit_expr]. rewrite CheckerFacts.visit_expr_appends.
    apply elem_of_app. right. by apply (IH v at' l').
Qed.

Lemma visit_stmts_flat_map (ss : list stmt) :
  Forall (λ s, ∀ b, visit_stmt s b = visit_exprs (stmt_exprs s) b) ss →
  ∀ b, fold_left (λ b s, visit_stmt s b) ss b =
       visit_exprs (flat_map stmt_exprs ss) b.
Proof.
  induction 1 as [|s ss Hs _ IH]; intros b; [done|].
  cbn [fold_left flat_map]. by rewrite visit_exprs_app, IH, Hs.
Qed.

(** Walking a statement is walking its expressions in turn. *)
Lemma visit_stmt_exprs (s : stmt) (b : list expr) :
  visit_stmt s b = visit_exprs (stmt_exprs s) b.
Proof.
  revert b. induction s as
    [name body decos IH|name bases body decos IH|value|targets value
    |target annotation value|test body orelse IHb IHo|value|]
    using stmt_rect'; intros b; cbn [EnumCheckerVisitor.visit_stmt stmt_exprs].
  - by rewrite visit_exprs_app, (visit_stmts_flat_map body IH).
  - by rewrite !visit_exprs_app, (visit_stmts_flat_map body IH).
  - by destruct value.
  - by rewrite visit_exprs_app.
  - by destruct value.
  - rewrite (visit_stmts_flat_map body IHb), (visit_stmts_flat_map orelse IHo).
    by rewrite CheckerFacts.visit_exprs_cons, visit_exprs_app.
  - done.
  - done.
Qed.

Lemma visit_module_exprs (m : module) (b : list expr) :
  visit_module m b = visit_exprs (module_exprs m) b.
Proof.
  destruct m as [body]. apply visit_stmts_flat_map, Forall_forall.
  intros s _ b'. apply visit_stmt_exprs.
Qed.

Lemma visit_module_elem (m : module) (n : expr) :
  n ∈ visit_module m [] ↔ defect_in oklist enums m n.
Proof.
  rewrite visit_module_exprs, visit_exprs_elem. split.
  - intros (root & Hroot & (value & attr & l & -> & Hv & Hf)%visit_expr_sound).
    by exists root, value, attr, l.
  - intros (root & value & attr & l & Hroot & Hv & -> & Hf).
    exists root. split; [done|]. by apply (visit_expr_complete _ _ Hv value attr l).
Qed.
End Facts.
End ScannerFacts.

(** X1.  The nodes a walk of a module flags are exactly the attribute
    accesses the scanner visits in it that are defects: no access of a
    declared or built-in member, and no access to a name that is not a
    registered class, is ever among them, and no visited defect is left
    out.  A walk only appends: nodes flagged before it stay at the front,
    in their order. *)
Theorem visit_module_flags_exactly_the_visited_defects
    (oklist : gset string) (enums : gmap string (gset string)) (m : module)
    (badnodes : list expr) :
  (∀ n, n ∈ EnumCheckerVisitor.visit_module oklist enums m [] ↔
        defect_in oklist enums m n) ∧
  EnumCheckerVisitor.visit_module oklist enums m badnodes =
    badnodes ++ EnumCheckerVisitor.visit_module oklist enums m [].
Proof.
  split.
  - intros n. apply ScannerFacts.visit_module_elem.
  - rewrite !ScannerFacts.visit_module_exprs.
    apply CheckerFacts.visit_exprs_appends.
Qed.

(** X2.  With an empty registry no node is flagged, whatever the tree. *)
Theorem visit_module_empty_registry (oklist : gset string) (m : module) :
  EnumCheckerVisitor.visit_module oklist ∅ m [] = [].
Proof.
  destruct (EnumCheckerVisitor.visit_module oklist ∅ m []) as [|n l] eqn:Hv;
    [done|].
  assert (n ∈ EnumCheckerVisitor.visit_module oklist ∅ m []) as Hn
    by (rewrite Hv; apply elem_of_cons; by left).
  apply ScannerFacts.visit_module_elem in Hn
    as (_ & _ & _ & _ & _ & _ & _ & cls & members & _ & Hlook & _).
  by rewrite lookup_empty in Hlook.
Qed.

(** X3.  A longer allow-list never flags a node that a shorter one lets
    through: what is flagged under [oklist'] is flagged under any
    [oklist ⊆ oklist']. *)
Theorem visit_module_oklist_antitone (oklist oklist' : gset string)
    (enums : gmap string (gset string)) (m : module) (n : expr) :
  oklist ⊆ oklist' →
  n ∈ EnumCheckerVisitor.visit_module oklist' enums m [] →
  n ∈ EnumCheckerVisitor.visit_module oklist enums m [].
Proof.
  intros Hsub. rewrite !ScannerFacts.visit_module_elem.
  intros (root & value & attr & l & Hroot & Hv & -> & Hf).
  exists root, value, attr, l. split; [done|]. split; [done|]. split; [done|].
  destruct Hf as (cls & members & Hc & Hm & Hnm & Hnok).
  exists cls, members. split; [done|]. split; [done|]. split; [done|].
  intros Hin. apply Hnok. by apply Hsub.
Qed.

(** ** The declaration scanner over a whole tree *)

Module RescanFacts.
Import EnumCollectorVisitor.

Section Facts.
(** The only exceptions a walk raises are the two duplicate errors. *)
Lemma visit_stmts_raises (ss : list stmt) :
  Forall (λ s, ∀ enums enums' e, visit_stmt s enums = (enums', Raise e) →
               ∃ name, e = DuplicateEnumClassError name ∨
                       e = DuplicateEnumItemError name) ss →
  ∀ enums enums' e, visit_stmts ss enums = (enums', Raise e) →
  ∃ name, e = DuplicateEnumClassError name ∨ e = DuplicateEnumItemError name.
Proof.
  induction 1 as [|s ss Hs _ IH]; intros enums enums' e; [done|].
  rewrite CollectorFacts.visit_stmts_cons.
  destruct (visit_stmt s enums) as [enums1 [[]|e1]] eqn:Hvisit.
  - apply IH.
  - intros [= <- <-]. by apply (Hs _ _ _ Hvisit).
Qed.

Lemma visit_stmt_raises (s : stmt) :
  ∀ enums enums' e, visit_stmt s enums = (enums', Raise e) →
  ∃ name, e = DuplicateEnumClassError name ∨ e = DuplicateEnumItemError name.
Proof.
  induction s as
    [name body decos IH|name bases body decos IH| | | |test body orelse IHb IHo
    | |] using stmt_rect'; intros enums enums' e; try done.
  - rewrite CollectorFacts.visit_stmt_FunctionDef.
    by apply visit_stmts_raises.
  - rewrite CollectorFacts.visit_stmt_ClassDef.
    intros [(_ & _ & ?)|[(_ & e' & Hnames & _ & [= ->])
      |[(_ & ? & ? & _ & _ & _ & _ & [= ->])
      |(_ & values & _ & _ & Hvisit)]]]%CollectorFacts.visit_ClassDef_cases.
    + done.
    + unfold assignment_names in Hnames. cbn [stmt_body] in Hnames.
      destruct (detect_duplicates _) as [[]|e''] eqn:Hd; [done|].
      injection Hnames as <-.
      apply detect_duplicates_raise in Hd as (k & -> & _). exists k. by right.
    + exists name. by left.
    + by apply (visit_stmts_raises _ IH _ _ _ Hvisit).
  - rewrite CollectorFacts.visit_stmt_If.
    destruct (visit_stmts body enums) as [enums1 [[]|e1]] eqn:Hbody.
    + by apply visit_stmts_raises.
    + intros [= <- <-]. by apply (visit_stmts_raises _ IHb _ _ _ Hbody).
Qed.

Lemma visit_module_raises (m : module) (enums enums' : gmap string (gset string))
    (e : exn) :
  visit_module m enums = (enums', Raise e) →
  ∃ name, e = DuplicateEnumClassError name ∨ e = DuplicateEnumItemError name.
Proof.
  destruct m as [body]. apply visit_stmts_raises, Forall_forall.
  intros s _. apply visit_stmt_raises.
Qed.

(** Scanning a tree again, from a registry that holds what the first scan
    left, changes nothing and ends as the first scan did. *)
Lemma visit_stmts_absorbed (ss : list stmt) :
  Forall (λ s, ∀ enums enums' r f, visit_stmt s enums = (enums', r) →
               enums' ⊆ f → visit_stmt s f = (f, r)) ss →
  ∀ enums enums' r f, visit_stmts ss enums = (enums', r) →
  enums' ⊆ f → visit_stmts ss f = (f, r).
Proof.
  induction 1 as [|s ss Hs _ IH]; intros enums enums' r f Hvisit Hsub.
  - by injection Hvisit as <- <-.
  - rewrite CollectorFacts.visit_stmts_cons in Hvisit |- *.
    destruct (visit_stmt s enums) as [enums1 [[]|e1]] eqn:Hs1.
    + assert (enums1 ⊆ f) as Hsub1.
      { etrans; [|exact Hsub]. by apply CollectorFacts.visit_stmts_keeps in Hvisit. }
      rewrite (Hs _ _ _ _ Hs1 Hsub1). by apply (IH enums1 enums').
    + injection Hvisit as <- <-. by rewrite (Hs _ _ _ _ Hs1 Hsub).
Qed.

Lemma visit_stmt_absorbed (s : stmt) :
  ∀ enums enums' r f, visit_stmt s enums = (enums', r) →
  enums' ⊆ f → visit_stmt s f = (f, r).
Proof.
  induction s as
    [name body decos IH|name bases body decos IH| | | |test body orelse IHb IHo
    | |] using stmt_rect'; intros enums enums' r f Hvisit Hsub;
    try (by injection Hvisit as <- <-).
  - rewrite CollectorFacts.visit_stmt_FunctionDef in Hvisit |- *.
    by apply (visit_stmts_absorbed _ IH enums enums').
  - rewrite CollectorFacts.visit_stmt_ClassDef in Hvisit |- *.
    apply CollectorFacts.visit_ClassDef_cases in Hvisit as
      [(Henum & -> & ->)|[(Henum & e & Hnames & -> & ->)
      |[(Henum & values & registered & Hnames & Hlook & Hne & -> & ->)
      |(Henum & values & Hnames & _ & Hvisit)]]];
      unfold visit_ClassDef; rewrite Henum; cbn [negb]; [done|..];
      rewrite Hnames; [done|..]; cbv zeta.
    + rewrite (lookup_weaken _ _ _ _ Hlook Hsub).
      by rewrite bool_decide_eq_true_2.
    + assert (f !! name = Some values) as Hf.
      { eapply lookup_weaken; [|exact Hsub].
        eapply lookup_weaken; [apply lookup_insert_eq|].
        by apply CollectorFacts.visit_stmts_keeps in Hvisit. }
      rewrite Hf, bool_decide_eq_false_2 by (intros Hne; by apply Hne).
      rewrite (insert_id _ _ _ Hf).
      by apply (visit_stmts_absorbed _ IH (<[name := values]> enums) enums').
  - rewrite CollectorFacts.visit_stmt_If in Hvisit |- *.
    destruct (visit_stmts body enums) as [enums1 [[]|e1]] eqn:Hbody.
    + assert (enums1 ⊆ f) as Hsub1.
      { etrans; [|exact Hsub]. by apply CollectorFacts.visit_stmts_keeps in Hvisit. }
      rewrite (visit_stmts_absorbed _ IHb _ _ _ _ Hbody Hsub1).
      by apply (visit_stmts_absorbed _ IHo enums1 enums').
    + injection Hvisit as <- <-.
      by rewrite (visit_stmts_absorbed _ IHb _ _ _ _ Hbody Hsub).
Qed.

Lemma visit_module_absorbed (m : module)
    (enums enums' f : gmap string (gset string)) (r : result unit) :
  visit_module m enums = (enums', r) → enums' ⊆ f → visit_module m f = (f, r).
Proof.
  destruct m as [body]. apply visit_stmts_absorbed, Forall_forall.
  intros s _. apply visit_stmt_absorbed.
Qed.
End Facts.
End RescanFacts.

(** X4.  A scan never removes an entry from the registry and never changes
    the members of one: whatever was registered before the scan of a tree
    is registered, unchanged, after it, also when the scan ends with an
    exception. *)
Theorem visit_module_never_changes_an_entry (m : module)
    (enums enums' : gmap string (gset string)) (r : result unit)
    (k : string) (v : gset string) :
  EnumCollectorVisitor.visit_module m enums = (enums', r) →
  enums !! k = Some v →
  enums' !! k = Some v.
Proof.
  intros Hvisit%CollectorFacts.visit_module_keeps_entries Hk.
  by eapply lookup_weaken.
Qed.

(** X5.  A scan never invents an entry: whatever the registry holds after
    the scan of a module was there before, or is the name and the member
    set of an enumeration class the scanner reaches in that module. *)
Theorem visit_module_entries_are_declared (body : list stmt)
    (enums enums' : gmap string (gset string)) (r : result unit)
    (k : string) (v : gset string) :
  EnumCollectorVisitor.visit_module (ModuleDef body) enums = (enums', r) →
  enums' !! k = Some v →
  enums !! k = Some v ∨ ∃ s, s ∈ body ∧ declares s k v.
Proof.
  intros Hvisit Hk.
  exact (CollectorFacts.visit_module_origin body enums enums' r Hvisit k v Hk).
Qed.

(** X6.  Scanning a tree a second time is idle: from the registry the first
    scan left, or from any registry that contains it, the scan leaves the
    registry as it is and ends the way the first scan ended, with the same
    exception if there was one. *)
Theorem visit_module_rescan_is_idle (m : module)
    (enums enums' f : gmap string (gset string)) (r : result unit) :
  EnumCollectorVisitor.visit_module m enums = (enums', r) →
  enums' ⊆ f →
  EnumCollectorVisitor.visit_module m f = (f, r) ∧
  EnumCollectorVisitor.visit_module m enums' = (enums', r).
Proof.
  intros Hvisit Hsub. split.
  - by apply (RescanFacts.visit_module_absorbed m enums enums').
  - by apply (RescanFacts.visit_module_absorbed m enums enums').
Qed.

(** ** Collecting over a set of files, continued *)

Section CollectEnumsMore.
Variable read_file : string → string.
Variable ast_parse : string → option module.

Abbreviation loop := (collect_enums_loop read_file ast_parse).
Abbreviation after := (registry_after read_file ast_parse).

(** The loop never ends with an exception, and its registry does not
    depend on the log. *)
Lemma collect_enums_loop_total (filenames : list string)
    (enums : gmap string (gset string)) (log : list logrecord) :
  ∃ log', loop filenames enums log = (after filenames enums, log', Ok ()).
Proof.
  revert enums log. induction filenames as [|fn filenames IH];
    intros enums log; cbn [collect_enums_loop registry_after].
  - by exists log.
  - destruct (ast_parse (read_file fn)) as [tree|]; [|apply IH].
    destruct (EnumCollectorVisitor.visit_module tree enums)
      as [enums1 [[]|e]] eqn:Hvisit; cbn [fst]; [apply IH|].
    destruct (RescanFacts.visit_module_raises _ _ _ _ Hvisit)
      as [name [->| ->]]; apply IH.
Qed.

Lemma collect_enums_registry (filenames : list string) (log : list logrecord) :
  (collect_enums read_file ast_parse filenames log).2 = Ok (after filenames ∅).
Proof.
  unfold collect_enums.
  by destruct (collect_enums_loop_total filenames ∅
    (log ++ [LogRecord INFO "Collecting enums from %d files"
               [ArgInt (Z.of_nat (length filenames))]])) as [log' ->].
Qed.

Lemma registry_after_app (fns1 fns2 : list string)
    (enums : gmap string (gset string)) :
  after (fns1 ++ fns2) enums = after fns2 (after fns1 enums).
Proof.
  revert enums. induction fns1 as [|fn fns1 IH]; intros enums; [done|].
  cbn [app registry_after]. by destruct (ast_parse (read_file fn)).
Qed.

Lemma registry_after_keeps (filenames : list string)
    (enums : gmap string (gset string)) :
  enums ⊆ after filenames enums.
Proof.
  revert enums. induction filenames as [|fn filenames IH]; intros enums;
    cbn [registry_after]; [done|].
  destruct (ast_parse (read_file fn)) as [tree|]; [|apply IH].
  etrans; [|apply IH].
  destruct (EnumCollectorVisitor.visit_module tree enums) as [enums1 r] eqn:Hv.
  by apply CollectorFacts.visit_module_keeps_entries in Hv.
Qed.

Lemma registry_after_filter (filenames : list string)
    (enums : gmap string (gset string)) :
  after (List.filter (parses read_file ast_parse) filenames) enums =
  after filenames enums.
Proof.
  revert enums. induction filenames as [|fn filenames IH]; intros enums;
    [done|].
  cbn [List.filter registry_after]. unfold parses at 1.
  destruct (ast_parse (read_file fn)) as [tree|] eqn:Hp; [|apply IH].
  cbn [registry_after]. rewrite Hp. apply IH.
Qed.

Lemma registry_after_absorbed (filenames : list string)
    (enums f : gmap string (gset string)) :
  after filenames enums ⊆ f → after filenames f = f.
Proof.
  revert enums. induction filenames as [|fn filenames IH]; intros enums;
    cbn [registry_after]; [done|].
  destruct (ast_parse (read_file fn)) as [tree|]; [|apply IH].
  destruct (EnumCollectorVisitor.visit_module tree enums) as [enums1 r] eqn:Hv.
  cbn [fst]. intros Hsub.
  assert (enums1 ⊆ f) as Hsub1
    by (etrans; [apply registry_after_keeps|exact Hsub]).
  rewrite (RescanFacts.visit_module_absorbed _ _ _ _ _ Hv Hsub1). cbn [fst].
  by apply (IH enums1).
Qed.

Lemma registry_after_origin (filenames : list string)
    (enums : gmap string (gset string)) (k : string) (v : gset string) :
  after filenames enums !! k = Some v →
  enums !! k = Some v ∨
  ∃ fn body s, fn ∈ filenames ∧ ast_parse (read_file fn) = Some (ModuleDef body) ∧
               s ∈ body ∧ declares s k v.
Proof.
  revert enums. induction filenames as [|fn filenames IH]; intros enums;
    cbn [registry_after]; [by left|].
  assert ((∃ fn' body s, fn' ∈ filenames ∧
             ast_parse (read_file fn') = Some (ModuleDef body) ∧
             s ∈ body ∧ declares s k v) →
          ∃ fn' body s, fn' ∈ fn :: filenames ∧
             ast_parse (read_file fn') = Some (ModuleDef body) ∧
             s ∈ body ∧ declares s k v) as Hlater.
  { intros (fn' & body & s & Hin & ?). exists fn', body, s.
    split; [apply elem_of_cons; by right|done]. }
  destruct (ast_parse (read_file fn)) as [[body]|] eqn:Hp.
  - intros [Hk|?]%IH; [|right; by apply Hlater].
    destruct (EnumCollectorVisitor.visit_module (ModuleDef body) enums)
      as [enums1 r] eqn:Hv. cbn [fst] in Hk.
    destruct (CollectorFacts.visit_module_origin _ _ _ _ Hv k v Hk)
      as [?|(s & Hs & Hd)]; [by left|right].
    exists fn, body, s. split; [apply elem_of_cons; by left|done].
  - intros [?|?]%IH; [by left|right; by apply Hlater].
Qed.
End CollectEnumsMore.


(** X8.  Files that do not parse have no part in the registry: leaving them
    out of the list gives the same registry. *)
Theorem collect_enums_ignores_unparsed_files (read_file : string → string)
    (ast_parse : string → option module) (filenames : list string)
    (log log' : list logrecord) :
  (collect_enums read_file ast_parse
     (List.filter (parses read_file ast_parse) filenames) log').2 =
  (collect_enums read_file ast_parse filenames log).2.
Proof. by rewrite !collect_enums_registry, registry_after_filter. Qed.

(** X9.  Later files never change what earlier files registered: the
    registry collected from a list of files is contained, entry by entry,
    in the registry collected from that list followed by further files. *)
Theorem collect_enums_first_declaration_wins (read_file : string → string)
    (ast_parse : string → option module) (fns1 fns2 : list string)
    (log log' : list logrecord) :
  ∃ enums1 enums,
    (collect_enums read_file ast_parse fns1 log).2 = Ok enums1 ∧
    (collect_enums read_file ast_parse (fns1 ++ fns2) log').2 = Ok enums ∧
    enums1 ⊆ enums.
Proof.
  exists (registry_after read_file ast_parse fns1 ∅),
         (registry_after read_file ast_parse (fns1 ++ fns2) ∅).
  rewrite !collect_enums_registry. split; [done|]. split; [done|].
  rewrite registry_after_app. apply registry_after_keeps.
Qed.

(** X10.  Collecting is idempotent: going through the files a second time
    adds nothing to the registry. *)
Theorem collect_enums_twice (read_file : string → string)
    (ast_parse : string → option module) (filenames : list string)
    (log log' : list logrecord) :
  (collect_enums read_file ast_parse (filenames ++ filenames) log').2 =
  (collect_enums read_file ast_parse filenames log).2.
Proof.
  rewrite !collect_enums_registry, registry_after_app.
  by rewrite (registry_after_absorbed read_file ast_parse filenames ∅).
Qed.

(** X11.  Every entry of the collected registry is the name and the member
    set of an enumeration class the scanner reaches in one of the files
    that parse. *)
Theorem collect_enums_entries_are_declared (read_file : string → string)
    (ast_parse : string → option module) (filenames : list string)
    (log : list logrecord) (enums : gmap string (gset string))
    (k : string) (v : gset string) :
  (collect_enums read_file ast_parse filenames log).2 = Ok enums →
  enums !! k = Some v →
  ∃ fn body s,
    fn ∈ filenames ∧ ast_parse (read_file fn) = Some (ModuleDef body) ∧
    s ∈ body ∧ declares s k v.
Proof.
  rewrite collect_enums_registry. intros [= <-] Hk.
  apply registry_after_origin in Hk as [Hk|?]; [|done].
  by rewrite lookup_empty in Hk.
Qed.

(** ** The report builder, continued *)

Section ReportMore.
Variable linesep : string.

Lemma size_list_to_set_le (l : list Z) :
  (size (list_to_set l : gset Z) ≤ length l)%nat.
Proof.
  induction l as [|x l IH]; [done|].
  cbn [list_to_set length].
  rewrite size_union_alt, size_singleton.
  assert (size (list_to_set l ∖ {[x]} : gset Z) ≤ size (list_to_set l : gset Z))%nat
    by (apply subseteq_size; intros y [Hy _]%elem_of_difference; exact Hy).
  lia.
Qed.

Lemma results_loop_app (codelines : list string) (pre rest : list expr) :
  results_loop codelines (pre ++ rest) =
  match results_loop codelines pre with
  | (pairs, None) =>
      let '(pairs', e) := results_loop codelines rest in (pairs ++ pairs', e)
  | (pairs, Some e) => (pairs, Some e)
  end.
Proof.
  induction pre as [|n pre IH]; cbn [app results_loop].
  - by destruct (results_loop codelines rest).
  - destruct (py_index codelines (lineno n - 1)) as [codeline|e]; [|done].
    rewrite IH. destruct (results_loop codelines pre) as [pairs [e|]]; [done|].
    by destruct (results_loop codelines rest).
Qed.
End ReportMore.

(** X12.  [summary] never counts more lines than nodes, and it counts no
    line exactly when it counts no node. *)
Theorem summary_lines_at_most_nodes (self : EnumChecker) :
  ((summary self).2 ≤ (summary self).1)%nat ∧
  ((summary self).1 = 0%nat ↔ (summary self).2 = 0%nat).
Proof.
  unfold summary. cbn [fst snd].
  pose proof (size_list_to_set_le (lineno <$> visitor_badnodes self)) as Hle.
  rewrite length_fmap in Hle. split; [done|]. split.
  - intros H0. lia.
  - destruct (visitor_badnodes self) as [|n l]; [done|].
    rewrite fmap_cons. cbn [list_to_set]. intros Hsize.
    apply size_empty_inv in Hsize. exfalso.
    assert (lineno n ∈ ({[lineno n]} ∪ list_to_set (lineno <$> l) : gset Z))
      as Hin by set_solver.
    rewrite Hsize in Hin. set_solver.
Qed.

(** X13.  [results] does not check the index.  When a flagged node has a
    line number past the last piece of the split text, the report ends
    there with [IndexError]; the pairs of the nodes before it, whose line
    numbers are within the text, have been yielded by then. *)
Theorem results_stops_past_last_line (linesep : string) (self : EnumChecker)
    (codelines : list string) (pre rest : list expr) (n : expr) :
  str_split (code self) linesep = Ok codelines →
  visitor_badnodes self = pre ++ n :: rest →
  Forall (λ n, 1 ≤ lineno n ≤ Z.of_nat (length codelines)) pre →
  Z.of_nat (length codelines) < lineno n →
  ∃ pairs,
    results linesep self = (pairs, Some IndexError) ∧
    pairs.*1 = lineno <$> pre ∧
    Forall (λ p, codelines !! Z.to_nat (p.1 - 1) = Some p.2) pairs.
Proof.
  intros Hsplit Hbad Hpre Hn.
  rewrite (results_split linesep self codelines Hsplit), Hbad.
  destruct (results_loop_in_bounds codelines pre Hpre)
    as (pairs & Hloop & Hfst & Hsnd).
  exists pairs. split; [|done].
  rewrite results_loop_app, Hloop. cbn [results_loop].
  rewrite py_index_beyond by lia. by rewrite app_nil_r.
Qed.

(** ** Checking over a set of files, continued *)

Section CheckFilesMore.
Variable oklist : gset string.
Variable linesep : string.
Variable read_file : string → string.
Variable ast_parse : string → option module.

Abbreviation flagged enums := (file_flagged oklist enums read_file ast_parse).
Abbreviation bad enums := (file_is_bad oklist enums read_file ast_parse).

(** [checkfile] keeps nothing of the file checked before: the flagged nodes
    it leaves are those of the file just read. *)
Lemma checkfile_Ok (checker checker1 : EnumChecker) (fn : string) :
  checkfile oklist read_file ast_parse checker fn = (checker1, Ok ()) →
  parses read_file ast_parse fn = true ∧
  visitor_enums checker1 = visitor_enums checker ∧
  visitor_badnodes checker1 = flagged (visitor_enums checker) fn ∧
  code checker1 = read_file fn.
Proof.
  unfold checkfile, parses, file_flagged. cbn [code visitor_enums visitor_badnodes].
  destruct (ast_parse (read_file fn)) as [tree|]; [|done].
  by intros [= <-].
Qed.


Lemma summary_nodecount (checker : EnumChecker) :
  (summary checker).1 = length (visitor_badnodes checker).
Proof. reflexivity. Qed.

Lemma check_files_loop_Ok (filenames : list string) :
  ∀ checker k log checker' log' n,
  check_files_loop oklist linesep read_file ast_parse filenames checker k log =
    (checker', log', Ok n) →
  Forall (λ fn, parses read_file ast_parse fn = true) filenames ∧
  n = (k + length (List.filter (bad (visitor_enums checker)) filenames))%nat.
Proof.
  induction filenames as [|fn filenames IH];
    intros checker k log checker' log' n; cbn [check_files_loop List.filter].
  - intros [= _ _ <-]. split; [constructor|]. cbn [length]. lia.
  - destruct (checkfile oklist read_file ast_parse checker fn)
      as [checker1 [[]|e]] eqn:Hcheck; [|done].
    apply checkfile_Ok in Hcheck as (Hparses & Henums & Hbad & _).
    destruct (results linesep checker1) as [lines [e|]]; [done|].
    pose proof (summary_nodecount checker1) as Hcount.
    destruct (summary checker1) as [nodecount linecount]. cbn [fst] in Hcount.
    unfold file_is_bad at 1. rewrite <- Hbad.
    destruct (visitor_badnodes checker1) as [|node nodes]; cbn [length] in Hcount;
      subst nodecount.
    + intros [Hall ->]%IH. rewrite Henums. split; [by constructor|done].
    + intros [Hall ->]%IH. rewrite Henums. split; [by constructor|].
      cbn [length]. lia.
Qed.

End CheckFilesMore.

Lemma check_files_Ok (oklist : gset string) (linesep : string)
    (read_file : string → string) (ast_parse : string → option module)
    (filenames : list string) (enums : gmap string (gset string))
    (log log' : list logrecord) (n : nat) :
  check_files oklist linesep read_file ast_parse filenames enums log =
    (log', Ok n) →
  Forall (λ fn, parses read_file ast_parse fn = true) filenames ∧
  n = length (List.filter (file_is_bad oklist enums read_file ast_parse)
                          filenames) ∧
  (n ≤ length filenames)%nat.
Proof.
  unfold check_files.
  destruct (check_files_loop _ _ _ _ filenames _ _ _)
    as [[checker' log1] [n'|e]] eqn:Hloop; [|done].
  apply check_files_loop_Ok in Hloop as [Hall ->].
  cbn [EnumChecker_init visitor_enums Nat.add].
  intros Hn.
  assert (n = length (List.filter (file_is_bad oklist enums read_file ast_parse)
                                  filenames)) as ->.
  { destruct (length _); by injection Hn as _ <-. }
  split; [done|]. split; [done|]. apply List.filter_length_le.
Qed.

Lemma no_bad_file_iff (oklist : gset string) (read_file : string → string)
    (ast_parse : string → option module) (enums : gmap string (gset string))
    (filenames : list string) :
  length (List.filter (file_is_bad oklist enums read_file ast_parse)
                      filenames) = 0%nat ↔
  ∀ fn, fn ∈ filenames →
        file_flagged oklist enums read_file ast_parse fn = [].
Proof.
  induction filenames as [|fn filenames IH].
  - split; [by intros _ fn ?%elem_of_nil|done].
  - cbn [List.filter]. unfold file_is_bad at 1.
    destruct (file_flagged oklist enums read_file ast_parse fn) eqn:Hf.
    + rewrite IH. split.
      * intros H fn' [->|?]%elem_of_cons; [done|by apply H].
      * intros H fn' ?. apply H, elem_of_cons. by right.
    + split; [done|]. intros H.
      specialize (H fn). rewrite Hf in H.
      discriminate H. apply elem_of_cons. by left.
Qed.


(** X14.  When [check_files] returns, every file was parsed, and the number
    it returns is the number of files in which at least one node is
    flagged: each file is judged by its own nodes only, and the number is
    never above the number of files. *)
Theorem check_files_counts_bad_files (oklist : gset string) (linesep : string)
    (read_file : string → string) (ast_parse : string → option module)
    (filenames : list string) (enums : gmap string (gset string))
    (log log' : list logrecord) (n : nat) :
  check_files oklist linesep read_file ast_parse filenames enums log =
    (log', Ok n) →
  Forall (λ fn, parses read_file ast_parse fn = true) filenames ∧
  n = length (List.filter (file_is_bad oklist enums read_file ast_parse)
                          filenames) ∧
  (n ≤ length filenames)%nat.
Proof. apply check_files_Ok. Qed.



(** X17.  When [main] returns, its result is 0 or 1, every file was parsed,
    and the result is 0 exactly when no node is flagged in any file,
    judged against the registry collected from those same files. *)
Theorem main_result (oklist : gset string) (linesep : string)
    (read_file : string → string) (ast_parse : string → option module)
    (filenames : list string) (log log' : list logrecord) (k : nat) :
  main oklist linesep read_file ast_parse filenames log = (log', Ok k) →
  (k ≤ 1)%nat ∧
  Forall (λ fn, parses read_file ast_parse fn = true) filenames ∧
  (k = 0%nat ↔
   ∀ fn, fn ∈ filenames →
         file_flagged oklist (registry_after read_file ast_parse filenames ∅)
                      read_file ast_parse fn = []).
Proof.
  unfold main.
  destruct (collect_enums_loop_total read_file ast_parse filenames ∅
    (log ++ [LogRecord INFO "Collecting enums from %d files"
               [ArgInt (Z.of_nat (length filenames))]])) as [log1 Hloop].
  unfold collect_enums. rewrite Hloop.
  destruct (check_files _ _ _ _ _ _ _) as [log2 [n|e]] eqn:Hcheck; [|done].
  intros [= _ <-].
  apply check_files_Ok in Hcheck as (Hall & -> & _).
  split; [apply Nat.le_min_r|]. split; [done|].
  pose proof (no_bad_file_iff oklist read_file ast_parse
                (registry_after read_file ast_parse filenames ∅) filenames)
    as Hiff.
  rewrite <- Hiff. lia.
Qed.

(** ** Duplicate items, continued *)

Section DuplicatesMore.
Lemma detect_duplicates_loop_raise_first (items : list (string * nat))
    (e : exn) :
  detect_duplicates_loop items = Raise e →
  ∃ pre k c post,
    items = pre ++ (k, c) :: post ∧ e = DuplicateEnumItemError k ∧
    (1 < c)%nat ∧ Forall (λ p, (p.2 ≤ 1)%nat) pre.
Proof.
  induction items as [|[k c] items IH]; cbn [detect_duplicates_loop]; [done|].
  destruct (Nat.ltb_spec 1 c) as [Hc|Hc].
  - intros [= <-]. by exists [], k, c, items.
  - intros (pre & k' & c' & post & -> & -> & Hc' & Hpre)%IH.
    exists ((k, c) :: pre), k', c', post. split; [done|]. split; [done|].
    split; [done|]. by constructor.
Qed.

Lemma fold_counter_add_keys (names : list string)
    (counts : list (string * nat)) :
  ∃ more,
    (fold_left (λ counts name, counter_add name counts) names counts).*1 =
    counts.*1 ++ more.
Proof.
  revert counts. induction names as [|x names IH]; intros counts;
    cbn [fold_left].
  - exists []. by rewrite app_nil_r.
  - destruct (IH (counter_add x counts)) as [more ->].
    rewrite counter_add_keys, <- app_assoc. by eexists.
Qed.

Lemma fold_counter_add_keys_elem (names : list string)
    (counts : list (string * nat)) (x : string) :
  x ∈ (fold_left (λ counts name, counter_add name counts) names counts).*1 →
  x ∈ counts.*1 ∨ x ∈ names.
Proof.
  revert counts. induction names as [|y names IH]; intros counts;
    cbn [fold_left]; [by left|].
  intros [Hx|Hx]%IH.
  - rewrite counter_add_keys in Hx. apply elem_of_app in Hx as [?|Hx]; [by left|].
    right. destruct (decide (y ∈ counts.*1)); [by apply elem_of_nil in Hx|].
    apply list_elem_of_singleton in Hx as ->. apply elem_of_cons. by left.
  - right. apply elem_of_cons. by right.
Qed.

Lemma Counter_keys_elem (names : list string) (x : string) :
  x ∈ (Counter names).*1 ↔ x ∈ names.
Proof.
  split.
  - intros [Hx|Hx]%fold_counter_add_keys_elem; [|done].
    by apply elem_of_nil in Hx.
  - intros Hx%occurrences_pos. rewrite <- counter_get_Counter in Hx.
    apply counter_get_pos in Hx. apply list_elem_of_fmap.
    by exists (x, counter_get x (Counter names)).
Qed.

Lemma Counter_keys_first_occurrence (pre rest : list string) (k : string) :
  k ∉ pre →
  ∃ more, (Counter (pre ++ k :: rest)).*1 = (Counter pre).*1 ++ k :: more.
Proof.
  intros Hk. unfold Counter. rewrite fold_left_app. cbn [fold_left].
  destruct (fold_counter_add_keys rest
              (counter_add k (fold_left (λ counts name, counter_add name counts)
                                        pre []))) as [more ->].
  rewrite counter_add_keys, decide_False.
  - rewrite <- app_assoc. by exists more.
  - by rewrite (Counter_keys_elem pre k).
Qed.

Lemma NoDup_split_unique {A : Type} (l1 l2 l1' l2' : list A) (x : A) :
  NoDup (l1 ++ x :: l2) → l1 ++ x :: l2 = l1' ++ x :: l2' → l1 = l1'.
Proof.
  revert l1'. induction l1 as [|y l1 IH]; intros [|y' l1'] Hnd Heq.
  - done.
  - injection Heq as <- ->. apply NoDup_cons in Hnd as [Hx _].
    exfalso. apply Hx, elem_of_app. right. apply elem_of_cons. by left.
  - injection Heq as -> <-. apply NoDup_cons in Hnd as [Hx _].
    exfalso. apply Hx, elem_of_app. right. apply elem_of_cons. by left.
  - injection Heq as -> Heq. apply NoDup_cons in Hnd as [_ Hnd].
    f_equal. by apply IH.
Qed.
End DuplicatesMore.

(** X18.  [detect_duplicates] returns normally on a list in which no name
    occurs twice, and on no other list. *)
Theorem detect_duplicates_succeeds_iff_no_repeat (names : list string) :
  detect_duplicates names = Ok () ↔ NoDup names.
Proof. apply detect_duplicates_ok. Qed.

(** X19.  When [detect_duplicates] fails, the error is a
    [DuplicateEnumItemError] and names the first repeated name: a name
    that occurs more than once, such that every name with a first
    occurrence before it occurs once only. *)
Theorem detect_duplicates_names_first_repeat (names : list string) (e : exn) :
  detect_duplicates names = Raise e →
  ∃ k,
    e = DuplicateEnumItemError k ∧ (1 < occurrences k names)%nat ∧
    ∀ pre rest, names = pre ++ k :: rest → k ∉ pre →
                ∀ x, x ∈ pre → occurrences x names = 1%nat.
Proof.
  unfold detect_duplicates.
  intros (ipre & k & c & ipost & Hitems & -> & Hc & Hpre)
    %detect_duplicates_loop_raise_first.
  pose proof (Counter_NoDup names) as Hnd. exists k.
  assert ((k, c) ∈ Counter names) as Hin
    by (rewrite Hitems; apply elem_of_app; right; apply elem_of_cons; by left).
  split; [done|]. split.
  - by rewrite <- counter_get_Counter, (counter_get_elem k c _ Hnd Hin).
  - intros pre rest Hnames Hk x Hx.
    destruct (Counter_keys_first_occurrence pre rest k Hk) as [more Hkeys].
    rewrite <- Hnames, Hitems, fmap_app, fmap_cons in Hkeys. cbn [fst] in Hkeys.
    assert (ipre.*1 = (Counter pre).*1) as Hsame.
    { eapply NoDup_split_unique; [|exact Hkeys].
      rewrite Hitems, fmap_app, fmap_cons in Hnd. exact Hnd. }
    assert (x ∈ ipre.*1) as ((x' & cx) & -> & Hxin)%list_elem_of_fmap
      by (rewrite Hsame; by apply Counter_keys_elem).
    cbn [fst] in *.
    rewrite Forall_forall in Hpre. specialize (Hpre _ Hxin). cbn [snd] in Hpre.
    assert ((x', cx) ∈ Counter names) as Hxin'
      by (rewrite Hitems; apply elem_of_app; by left).
    assert (0 < occurrences x' names)%nat
      by (apply occurrences_pos; rewrite Hnames; apply elem_of_app; by left).
    rewrite <- counter_get_Counter, (counter_get_elem x' cx _ Hnd Hxin') in *.
    lia.
Qed.

(** X20.  A class body in which an identifier is an assignment target more
    than once makes [assignment_names] fail with a
    [DuplicateEnumItemError] that names such an identifier; no member set
    is returned. *)
Theorem assignment_names_rejects_repeated_target (name : string)
    (bases : list expr) (body : list stmt) (decorator_list : list expr) :
  ¬ NoDup (identifier_targets body) →
  ∃ k,
    assignment_names (ClassDef name bases body decorator_list) =
      Raise (DuplicateEnumItemError k) ∧
    (1 < occurrences k (identifier_targets body))%nat.
Proof. apply assignment_names_duplicate. Qed.

(** ** Listing the files *)

Section PyfilesFacts.
Local Arguments String.append : simpl nomatch.

Lemma endswith_refl (s : string) : endswith s s = true.
Proof. destruct s; cbn [endswith]; by rewrite String.eqb_refl. Qed.

Lemma endswith_cons (c : ascii) (s suffix : string) :
  endswith s suffix = true → endswith (String c s) suffix = true.
Proof. intros H. cbn [endswith]. rewrite H. apply orb_true_r. Qed.

Lemma endswith_append (a b suffix : string) :
  endswith b suffix = true → endswith (a +:+ b) suffix = true.
Proof.
  intros H. induction a as [|c a IH]; [done|].
  simpl. by apply endswith_cons.
Qed.

(** [endswith] is what its name says. *)
Lemma endswith_spec (s suffix : string) :
  endswith s suffix = true ↔ ∃ front, s = front +:+ suffix.
Proof.
  split.
  - induction s as [|c s IH]; cbn [endswith].
    + rewrite orb_false_r. intros ->%String.eqb_eq. by exists "".
    + intros [->%String.eqb_eq|[front ->]%IH]%orb_true_iff.
      * by exists "".
      * by exists (String c front).
  - intros [front ->]. apply endswith_append, endswith_refl.
Qed.

Lemma posixpath_join_endswith (a b suffix : string) :
  endswith b suffix = true → endswith (posixpath_join a b) suffix = true.
Proof.
  intros H. unfold posixpath_join.
  destruct (String.prefix "/" b); [done|].
  destruct (_ || _); by repeat apply endswith_append.
Qed.
End PyfilesFacts.

(** X21.  [pyfiles] lists the files of the walk whose names end in [.py],
    each joined to the path of its directory, and nothing else; every
    path it lists ends in [.py] itself. *)
Theorem pyfiles_lists_the_py_files
    (os_walk : string → list (string * list string * list string))
    (dir_ : string) :
  Forall (λ path, ∃ front, path = front +:+ ".py") (pyfiles os_walk dir_) ∧
  (∀ path, path ∈ pyfiles os_walk dir_ ↔
     ∃ dirpath dirnames filenames filename front,
       (dirpath, dirnames, filenames) ∈ os_walk dir_ ∧
       filename ∈ filenames ∧ filename = front +:+ ".py" ∧
       path = posixpath_join dirpath filename).
Proof.
  assert (∀ path, path ∈ pyfiles os_walk dir_ ↔
     ∃ dirpath dirnames filenames filename front,
       (dirpath, dirnames, filenames) ∈ os_walk dir_ ∧
       filename ∈ filenames ∧ filename = front +:+ ".py" ∧
       path = posixpath_join dirpath filename) as Hiff.
  { intros path. unfold pyfiles. rewrite list_elem_of_bind. split.
    - intros ([[dirpath dirnames] filenames] & Hpath & Hdir).
      apply list_elem_of_bind in Hpath as (filename & Hpath & Hfile).
      destruct (endswith filename ".py") eqn:Hpy;
        [|by apply elem_of_nil in Hpath].
      apply list_elem_of_singleton in Hpath as ->.
      apply endswith_spec in Hpy as [front ->].
      by exists dirpath, dirnames, filenames, (front +:+ ".py"), front.
    - intros (dirpath & dirnames & filenames & filename & front
              & Hdir & Hfile & -> & ->).
      exists (dirpath, dirnames, filenames). split; [|done].
      apply list_elem_of_bind. exists (front +:+ ".py"). split; [|done].
      rewrite (proj2 (endswith_spec _ ".py")) by by exists front.
      by apply list_elem_of_singleton. }
  split; [|done].
  apply Forall_forall. intros path
    (dirpath & _ & _ & filename & front & _ & _ & -> & ->)%Hiff.
  apply endswith_spec, posixpath_join_endswith, endswith_spec.
  by exists front.
Qed.

(** ** The two passes together *)

Lemma assignment_names_Ok (name : string) (bases : list expr)
    (body : list stmt) (decorator_list : list expr) (values : gset string) :
  assignment_names (ClassDef name bases body decorator_list) = Ok values →
  values = list_to_set (identifier_targets body).
Proof.
  unfold assignment_names. cbn [stmt_body]. rewrite assignment_names_list.
  destruct (detect_duplicates _) as [[]|e]; [|done]. by intros [= <-].
Qed.

(** X22.  A member that a scanned file declares is never flagged.  When the
    scan of a module ends normally and reaches an enumeration class in
    which [member] is an assignment target, then in no tree, checked
    against the registry the scan left or any registry containing it, is
    an access [base.member] flagged whose base names that class. *)
Theorem declared_member_is_never_flagged (oklist : gset string)
    (top : list stmt) (enums0 enums f : gmap string (gset string))
    (s : stmt) (name : string) (bases : list expr) (body : list stmt)
    (decorator_list : list expr) (targets : list expr) (value : expr)
    (member : string) (l l' : Z) (m : module) (base : expr) :
  EnumCollectorVisitor.visit_module (ModuleDef top) enums0 = (enums, Ok ()) →
  s ∈ top →
  reaches s (ClassDef name bases body decorator_list) →
  is_enum_class (NStmt (ClassDef name bases body decorator_list)) = true →
  Assign targets value ∈ body →
  Name member l ∈ targets →
  enums ⊆ f →
  candidate base = Some name →
  Attribute base member l' ∉ EnumCheckerVisitor.visit_module oklist f m [].
Proof.
  intros Hvisit Hs Hreach Henum Hassign Htarget Hsub Hbase Hflagged.
  destruct (CollectorFacts.visit_stmts_Ok_elem _ _ _ _ Hvisit Hs)
    as (enums1 & enums2 & Hvs & Hsub2).
  destruct (CollectorFacts.visit_stmt_collects s _ Hreach _ _ _ _ eq_refl
              Henum _ _ Hvs) as (values & Hnames & Hlook).
  apply assignment_names_Ok in Hnames.
  assert (member ∈ values) as Hmember.
  { rewrite Hnames, elem_of_list_to_set. apply identifier_targets_elem.
    by exists targets, value, l. }
  assert (f !! name = Some values) as Hf.
  { eapply lookup_weaken; [|exact Hsub]. by eapply lookup_weaken. }
  apply ScannerFacts.visit_module_elem in Hflagged
    as (_ & base' & member' & l'' & _ & _ & [= <- <- _]
        & cls & members & Hc & Hm & Hnm & _).
  rewrite Hbase in Hc. injection Hc as <-. rewrite Hf in Hm.
  injection Hm as <-. done.
Qed.

(** * The further properties at the sample inputs *)

(** [Foo.c] is flagged under the sample allow-list, hence under the empty
    one. *)
Lemma visit_module_oklist_antitone_witness :
  (∅ : gset string) ⊆ sample_oklist ∧
  Attribute (Name "Foo" 2) "c" 2 ∈
    EnumCheckerVisitor.visit_module sample_oklist sample_enums use_tree [] ∧
  Attribute (Name "Foo" 2) "c" 2 ∈
    EnumCheckerVisitor.visit_module ∅ sample_enums use_tree [].
Proof.
  assert ((∅ : gset string) ⊆ sample_oklist) as Hsub
    by apply empty_subseteq.
  assert (Attribute (Name "Foo" 2) "c" 2 ∈
    EnumCheckerVisitor.visit_module sample_oklist sample_enums use_tree [])
    as Hin by (apply elem_of_cons; left; reflexivity).
  split; [exact Hsub|]. split; [exact Hin|].
  exact (visit_module_oklist_antitone ∅ sample_oklist sample_enums use_tree _
           Hsub Hin).
Defined.

(** [Foo] is still registered with [a] and [b] after the scan of
    [dup.py]. *)
Lemma visit_module_never_changes_an_entry_witness :
  EnumCollectorVisitor.visit_module dup_tree sample_enums =
    (<[ "A" := {[ "x" ]} ]> sample_enums, Raise (DuplicateEnumItemError "y")) ∧
  sample_enums !! "Foo" = Some {[ "a"; "b" ]} ∧
  (<[ "A" := {[ "x" ]} ]> sample_enums) !! "Foo" = Some {[ "a"; "b" ]}.
Proof.
  assert (EnumCollectorVisitor.visit_module dup_tree sample_enums =
    (<[ "A" := {[ "x" ]} ]> sample_enums, Raise (DuplicateEnumItemError "y")))
    as Hvisit by (vm_compute; reflexivity).
  assert (sample_enums !! "Foo" = Some {[ "a"; "b" ]}) as Hk by reflexivity.
  split; [exact Hvisit|]. split; [exact Hk|].
  exact (visit_module_never_changes_an_entry dup_tree sample_enums _ _ "Foo" _
           Hvisit Hk).
Defined.

(** The entry [A] the scan of [dup.py] leaves is a class of [dup.py]. *)
Lemma visit_module_entries_are_declared_witness :
  EnumCollectorVisitor.visit_module dup_tree ∅ =
    (dup_enums, Raise (DuplicateEnumItemError "y")) ∧
  dup_enums !! "A" = Some {[ "x" ]} ∧
  ((∅ : gmap string (gset string)) !! "A" = Some {[ "x" ]} ∨
   ∃ s, s ∈ [ClassDef "A" [Name "Enum" 1]
               [Assign [Name "x" 2] (Constant (CInt 1) 2)] [];
             ClassDef "B" [Name "Enum" 3]
               [Assign [Name "y" 4] (Constant (CInt 1) 4);
                Assign [Name "y" 5] (Constant (CInt 2) 5)] []] ∧
        declares s "A" {[ "x" ]}).
Proof.
  assert (EnumCollectorVisitor.visit_module dup_tree ∅ =
            (dup_enums, Raise (DuplicateEnumItemError "y"))) as Hvisit
    by (vm_compute; reflexivity).
  assert (dup_enums !! "A" = Some {[ "x" ]}) as Hk by reflexivity.
  split; [exact Hvisit|]. split; [exact Hk|].
  exact (visit_module_entries_are_declared _ ∅ dup_enums _ "A" _ Hvisit Hk).
Defined.

(** Scanning [dup.py] again, with [Foo] registered as well, adds nothing
    and fails on the same item. *)
Lemma visit_module_rescan_is_idle_witness :
  EnumCollectorVisitor.visit_module dup_tree ∅ =
    (dup_enums, Raise (DuplicateEnumItemError "y")) ∧
  dup_enums ⊆ <[ "Foo" := {[ "a"; "b" ]} ]> dup_enums ∧
  EnumCollectorVisitor.visit_module dup_tree
    (<[ "Foo" := {[ "a"; "b" ]} ]> dup_enums) =
    (<[ "Foo" := {[ "a"; "b" ]} ]> dup_enums,
     Raise (DuplicateEnumItemError "y")) ∧
  EnumCollectorVisitor.visit_module dup_tree dup_enums =
    (dup_enums, Raise (DuplicateEnumItemError "y")).
Proof.
  assert (EnumCollectorVisitor.visit_module dup_tree ∅ =
            (dup_enums, Raise (DuplicateEnumItemError "y"))) as Hvisit
    by (vm_compute; reflexivity).
  assert (dup_enums ⊆ <[ "Foo" := {[ "a"; "b" ]} ]> dup_enums) as Hsub
    by (apply insert_subseteq; reflexivity).
  split; [exact Hvisit|]. split; [exact Hsub|].
  exact (visit_module_rescan_is_idle dup_tree ∅ dup_enums _ _ Hvisit Hsub).
Defined.

(** The entry [Foo] collected from [bad.py] and [decl.py] is the class of
    [decl.py]. *)
Lemma collect_enums_entries_are_declared_witness :
  (collect_enums sample_read_file sample_ast_parse ["bad.py"; "decl.py"] []).2 =
    Ok sample_enums ∧
  sample_enums !! "Foo" = Some {[ "a"; "b" ]} ∧
  ∃ fn body s,
    fn ∈ ["bad.py"; "decl.py"] ∧
    sample_ast_parse (sample_read_file fn) = Some (ModuleDef body) ∧
    s ∈ body ∧ declares s "Foo" {[ "a"; "b" ]}.
Proof.
  assert ((collect_enums sample_read_file sample_ast_parse
             ["bad.py"; "decl.py"] []).2 = Ok sample_enums) as Hcollect
    by (vm_compute; reflexivity).
  assert (sample_enums !! "Foo" = Some {[ "a"; "b" ]}) as Hk by reflexivity.
  split; [exact Hcollect|]. split; [exact Hk|].
  exact (collect_enums_entries_are_declared sample_read_file sample_ast_parse
           _ [] sample_enums "Foo" _ Hcollect Hk).
Defined.

(** The report of [sample_overrun] yields the pair of line 2 and then
    fails. *)
Lemma results_stops_past_last_line_witness :
  str_split (code sample_overrun) newline =
    Ok ["x = Foo.a"; "y = Foo.c + Foo.d"; "z = Foo.name"; ""] ∧
  ∃ pairs,
    results newline sample_overrun = (pairs, Some IndexError) ∧
    pairs.*1 = lineno <$> [Attribute (Name "Foo" 2) "c" 2] ∧
    Forall (λ p, ["x = Foo.a"; "y = Foo.c + Foo.d"; "z = Foo.name"; ""]
                   !! Z.to_nat (p.1 - 1) = Some p.2) pairs.
Proof.
  assert (str_split (code sample_overrun) newline =
            Ok ["x = Foo.a"; "y = Foo.c + Foo.d"; "z = Foo.name"; ""])
    as Hsplit by reflexivity.
  split; [exact Hsplit|].
  apply (results_stops_past_last_line newline sample_overrun _
           [Attribute (Name "Foo" 2) "c" 2] [] (Attribute (Name "Foo" 9) "d" 9)
           Hsplit eq_refl).
  - vm_compute. repeat constructor; discriminate.
  - reflexivity.
Defined.

(** Of [decl.py] and [use.py] one file is bad. *)
Lemma check_files_counts_bad_files_witness :
  check_files sample_oklist newline sample_read_file sample_ast_parse
    ["decl.py"; "use.py"] sample_enums [] =
    ((check_files sample_oklist newline sample_read_file sample_ast_parse
        ["decl.py"; "use.py"] sample_enums []).1, Ok 1%nat) ∧
  Forall (λ fn, parses sample_read_file sample_ast_parse fn = true)
         ["decl.py"; "use.py"] ∧
  1%nat = length (List.filter
                    (file_is_bad sample_oklist sample_enums sample_read_file
                                 sample_ast_parse) ["decl.py"; "use.py"]) ∧
  (1 ≤ length ["decl.py"; "use.py"])%nat.
Proof.
  assert (check_files sample_oklist newline sample_read_file sample_ast_parse
    ["decl.py"; "use.py"] sample_enums [] =
    ((check_files sample_oklist newline sample_read_file sample_ast_parse
        ["decl.py"; "use.py"] sample_enums []).1, Ok 1%nat)) as Hcheck
    by (vm_compute; reflexivity).
  split; [exact Hcheck|].
  exact (check_files_counts_bad_files sample_oklist newline sample_read_file
           sample_ast_parse _ sample_enums [] _ 1%nat Hcheck).
Defined.



(** The run over [decl.py] and [use.py] ends with 1. *)
Lemma main_result_witness :
  main sample_oklist newline sample_read_file sample_ast_parse
    ["decl.py"; "use.py"] [] =
    ((main sample_oklist newline sample_read_file sample_ast_parse
        ["decl.py"; "use.py"] []).1, Ok 1%nat) ∧
  (1 ≤ 1)%nat ∧
  Forall (λ fn, parses sample_read_file sample_ast_parse fn = true)
         ["decl.py"; "use.py"] ∧
  (1%nat = 0%nat ↔
   ∀ fn, fn ∈ ["decl.py"; "use.py"] →
         file_flagged sample_oklist
           (registry_after sample_read_file sample_ast_parse
              ["decl.py"; "use.py"] ∅)
           sample_read_file sample_ast_parse fn = []).
Proof.
  assert (main sample_oklist newline sample_read_file sample_ast_parse
      ["decl.py"; "use.py"] [] =
    ((main sample_oklist newline sample_read_file sample_ast_parse
        ["decl.py"; "use.py"] []).1, Ok 1%nat)) as Hmain
    by (vm_compute; reflexivity).
  split; [exact Hmain|].
  exact (main_result sample_oklist newline sample_read_file sample_ast_parse
           _ [] _ 1%nat Hmain).
Defined.

(** The list of the repository's [test_detect_duplicates]: [a] is the
    first repeated name. *)
Lemma detect_duplicates_names_first_repeat_witness :
  detect_duplicates ["a"; "b"; "a"; "c"] = Raise (DuplicateEnumItemError "a") ∧
  ∃ k,
    DuplicateEnumItemError "a" = DuplicateEnumItemError k ∧
    (1 < occurrences k ["a"; "b"; "a"; "c"])%nat ∧
    ∀ pre rest, ["a"; "b"; "a"; "c"] = pre ++ k :: rest → k ∉ pre →
                ∀ x, x ∈ pre → occurrences x ["a"; "b"; "a"; "c"] = 1%nat.
Proof.
  assert (detect_duplicates ["a"; "b"; "a"; "c"] =
            Raise (DuplicateEnumItemError "a")) as Hraise by reflexivity.
  split; [exact Hraise|].
  exact (detect_duplicates_names_first_repeat _ _ Hraise).
Defined.

(** The body of [B] in [dup.py] assigns [y] twice. *)
Lemma assignment_names_rejects_repeated_target_witness :
  ¬ NoDup (identifier_targets
             [Assign [Name "y" 4] (Constant (CInt 1) 4);
              Assign [Name "y" 5] (Constant (CInt 2) 5)]) ∧
  ∃ k,
    assignment_names
      (ClassDef "B" [Name "Enum" 3]
         [Assign [Name "y" 4] (Constant (CInt 1) 4);
          Assign [Name "y" 5] (Constant (CInt 2) 5)] []) =
      Raise (DuplicateEnumItemError k) ∧
    (1 < occurrences k
           (identifier_targets
              [Assign [Name "y" 4] (Constant (CInt 1) 4);
               Assign [Name "y" 5] (Constant (CInt 2) 5)]))%nat.
Proof.
  assert (¬ NoDup (identifier_targets
             [Assign [Name "y" 4] (Constant (CInt 1) 4);
              Assign [Name "y" 5] (Constant (CInt 2) 5)])) as Hdup.
  { intros [Hy _]%NoDup_cons. apply Hy, elem_of_cons. left. reflexivity. }
  split; [exact Hdup|].
  exact (assignment_names_rejects_repeated_target "B" [Name "Enum" 3] _ [] Hdup).
Defined.

(** [Foo.a] is not flagged in [use.py] against the registry of
    [decl.py]. *)
Lemma declared_member_is_never_flagged_witness :
  EnumCollectorVisitor.visit_module decl_tree ∅ = (sample_enums, Ok ()) ∧
  Attribute (Name "Foo" 1) "a" 1 ∉
    EnumCheckerVisitor.visit_module sample_oklist sample_enums use_tree [].
Proof.
  assert (EnumCollectorVisitor.visit_module decl_tree ∅ = (sample_enums, Ok ()))
    as Hvisit by (vm_compute; reflexivity).
  split; [exact Hvisit|].
  apply (declared_member_is_never_flagged sample_oklist [decl_Foo] ∅
           sample_enums sample_enums decl_Foo "Foo" [Name "Enum" 1]
           [Assign [Name "a" 2] (Constant (CInt 1) 2);
            Assign [Name "b" 3] (Constant (CInt 2) 3)] []
           [Name "a" 2] (Constant (CInt 1) 2) "a" 2 1 use_tree (Name "Foo" 1)
           Hvisit).
  - apply elem_of_cons. left. reflexivity.
  - apply reaches_here.
  - reflexivity.
  - apply elem_of_cons. left. reflexivity.
  - apply elem_of_cons. left. reflexivity.
  - reflexivity.
  - reflexivity.
Defined.
